(** * discord-notification-bot: sender and conversation purger

    A shallow embedding of [notification-bot.js] and [purge-conversation.js].
    JavaScript strings are sequences of UTF-16 code units, [process.env] is a
    finite map, promises are single-assignment cells, and every call into the
    chat platform, the console and the process is recorded as an [Event] of
    the run's trace.  The chat platform itself (discord.js) is an external
    collaborator: its answers are the fields of a [World] record. *)

From Stdlib Require Import List NArith ZArith Lia Ascii String Sorted DecimalString.
From stdpp Require Import gmap sorting.
Import ListNotations.

Local Open Scope nat_scope.

(** ** JavaScript values *)

Module Js.

(** A string is its sequence of UTF-16 code units. *)
Definition jsstring : Type := list N.

(** An ASCII literal of the source text. *)
Definition lit (s : string) : jsstring :=
  List.map N_of_ascii (list_ascii_of_string s).

(** Decimal rendering of a number inside a template literal. *)
Definition showN (n : N) : jsstring :=
  lit (NilZero.string_of_uint (N.to_uint n)).

Definition showNat (n : nat) : jsstring := showN (N.of_nat n).

(** [${v}] for a value that may be [undefined]. *)
Definition template (v : option jsstring) : jsstring :=
  match v with
  | Some s => s
  | None => lit "undefined"
  end.

(** ECMAScript WhiteSpace and LineTerminator code points, the characters
    removed by [String.prototype.trim]. *)
Definition isWhiteSpace (c : N) : bool :=
  (  (c =? 9) || (c =? 10) || (c =? 11) || (c =? 12) || (c =? 13)
  || (c =? 32) || (c =? 160) || (c =? 5760)
  || ((8192 <=? c) && (c <=? 8202))
  || (c =? 8232) || (c =? 8233) || (c =? 8239) || (c =? 8287)
  || (c =? 12288) || (c =? 65279))%N.

Fixpoint trimStart (s : jsstring) : jsstring :=
  match s with
  | [] => []
  | c :: rest => if isWhiteSpace c then trimStart rest else s
  end.

Definition trimEnd (s : jsstring) : jsstring := rev (trimStart (rev s)).

Definition trim (s : jsstring) : jsstring := trimEnd (trimStart s).

Fixpoint startsWith (s search : jsstring) : bool :=
  match search, s with
  | [], _ => true
  | _ :: _, [] => false
  | x :: search', c :: s' => (x =? c)%N && startsWith s' search'
  end.

(** [s.includes(search)] *)
Fixpoint includes (s search : jsstring) : bool :=
  startsWith s search ||
  match s with
  | [] => false
  | _ :: s' => includes s' search
  end.

(** [parts.join(sep)] *)
Fixpoint join (sep : jsstring) (parts : list jsstring) : jsstring :=
  match parts with
  | [] => []
  | [p] => p
  | p :: rest => p ++ sep ++ join sep rest
  end.

(** Strings are falsy exactly when empty; [undefined] is falsy. *)
Definition truthy (v : option jsstring) : bool :=
  match v with
  | None => false
  | Some [] => false
  | Some (_ :: _) => true
  end.

(** An error object: its [message] and, for platform faults, its
    numeric [code] ([None] when the property is absent or not a number). *)
Record JsError : Type := mkError { message : jsstring; code : option Z }.

(** [new Error(msg)] *)
Definition Error (msg : jsstring) : JsError :=
  {| message := msg; code := None |}.

(** The result of evaluating a call that may throw. *)
Inductive Outcome (A : Type) : Type :=
| Returned (a : A)
| Thrown (e : JsError).
Arguments Returned {A} a.
Arguments Thrown {A} e.

(** A promise settles at most once: later [resolve]/[reject] calls are
    ignored. *)
Inductive Promise (A : Type) : Type :=
| Pending
| Fulfilled (v : A)
| Rejected (e : JsError).
Arguments Pending {A}.
Arguments Fulfilled {A} v.
Arguments Rejected {A} e.

Definition resolve {A} (p : Promise A) (v : A) : Promise A :=
  match p with
  | Pending => Fulfilled v
  | _ => p
  end.

Definition reject {A} (p : Promise A) (e : JsError) : Promise A :=
  match p with
  | Pending => Rejected e
  | _ => p
  end.

End Js.
Export Js.

(** [process.env] *)
Abbreviation Env := (gmap (list N) (list N)).

(** ** The chat platform and the trace of a run *)

Module Discord.

(** A message identifier (snowflake): the number its decimal string
    denotes.  Older messages have smaller identifiers.  As a JavaScript
    value it is a non-empty string, hence truthy. *)
Definition Snowflake : Type := N.

(** What [message.delete()] does for a given message. *)
Inductive DeleteOutcome : Type :=
| DeleteOk
| DeleteFault (e : JsError).

Record Message : Type := mkMessage {
  m_id : Snowflake;
  m_author : Snowflake;
  m_delete : DeleteOutcome
}.

(** One turn of the event loop once the listeners are registered: the
    ready listener starts or resumes after an [await], a client ["error"]
    event is delivered (its listener runs up to its own [await]), or a
    suspended ["error"] listener resumes. *)
Inductive Turn : Type :=
| ListenerStep
| ClientError (e : JsError)
| ErrorListenerStep.

(** What follows [client.login(token)].  [LoginRejected e]: the gateway
    connection fails; discord.js destroys the client inside [Client.login]
    and then rejects.  [LoginReady]: the ready event fires and no client
    ["error"] event is delivered while its listener runs.
    [LoginAsyncFault e]: a client ["error"] event is delivered before the
    ready event, and its listener runs to the end.  [LoginInterleaved sched]:
    the ready listener and the listeners of any number of client ["error"]
    events take turns as [sched] says; a turn that cannot be taken is
    skipped, and when [sched] is used up a suspended ["error"] listener
    resumes, otherwise the ready listener runs on. *)
Inductive LoginOutcome : Type :=
| LoginRejected (e : JsError)
| LoginReady
| LoginAsyncFault (e : JsError)
| LoginInterleaved (sched : list Turn).

(** What [client.users.fetch(id)] resolves to. *)
Inductive UserLookup : Type :=
| UserFound
| UserNull
| UserFault (e : JsError).

(** Calls into the platform, the console and the process, in program
    order.  [MessagesLast n] marks the evaluation of [messages.last()]
    on a page of [n] messages. *)
Inductive Event : Type :=
| ConsoleLog (args : list jsstring)
| ConsoleError (args : list jsstring)
| NewClient
| ClientLogin (token : option jsstring)
| UsersFetch (userId : option jsstring)
| UserSend (text : jsstring)
| UserCreateDM
| MessagesFetch (before : option Snowflake) (limit : nat)
| MessageDelete (id : Snowflake)
| MessagesLast (size : nat)
| Delay (ms : nat)
| ClientDestroy
| ProcessExit (code : Z).

Definition isNewClient (e : Event) : bool :=
  match e with NewClient => true | _ => false end.
Definition isDestroy (e : Event) : bool :=
  match e with ClientDestroy => true | _ => false end.
Definition isFetch (e : Event) : bool :=
  match e with MessagesFetch _ _ => true | _ => false end.
Definition isDelete (e : Event) : bool :=
  match e with MessageDelete _ => true | _ => false end.
Definition isDelay (e : Event) : bool :=
  match e with Delay _ => true | _ => false end.

Definition exitCodes (t : list Event) : list Z :=
  flat_map (fun e => match e with ProcessExit c => [c] | _ => [] end) t.

Definition isExit (e : Event) : bool :=
  match e with ProcessExit _ => true | _ => false end.

(** Calls whose promise the programs [await]: a listener is suspended
    right after each of them. *)
Definition isAwaited (e : Event) : bool :=
  match e with
  | ClientLogin _ | UsersFetch _ | UserSend _ | UserCreateDM
  | MessagesFetch _ _ | MessageDelete _ | Delay _ | ClientDestroy => true
  | _ => false
  end.

(** What a listener does until its next suspension, and what is left of
    it. *)
Fixpoint nextSegment (t : list Event) : list Event * list Event :=
  match t with
  | [] => ([], [])
  | e :: rest =>
      if isAwaited e then ([e], rest)
      else let '(seg, rest') := nextSegment rest in (e :: seg, rest')
  end.

(** [process.exit] ends the run: nothing after it happens. *)
Fixpoint untilExit (t : list Event) : list Event :=
  match t with
  | [] => []
  | ProcessExit c :: _ => [ProcessExit c]
  | e :: rest => e :: untilExit rest
  end.

(** The events of the ready listener [listener] and of the ["error"]
    listener [onError], taking turns as [sched] says.  [pending] holds what
    is left of the suspended ["error"] listeners, oldest first. *)
Fixpoint interleave (onError : JsError -> list Event) (sched : list Turn)
    (listener : list Event) (pending : list (list Event)) : list Event :=
  match sched with
  | [] => List.concat pending ++ listener
  | ListenerStep :: sched' =>
      let '(seg, rest) := nextSegment listener in
      seg ++ interleave onError sched' rest pending
  | ClientError e :: sched' =>
      let '(seg, rest) := nextSegment (onError e) in
      seg ++ interleave onError sched' listener (pending ++ [rest])
  | ErrorListenerStep :: sched' =>
      match pending with
      | [] => interleave onError sched' listener []
      | p :: ps =>
          let '(seg, rest) := nextSegment p in
          seg ++ interleave onError sched' listener (rest :: ps)
      end
  end.

End Discord.
Export Discord.

(** [REQUIRED_ENV_VARS], the same in both programs. *)
Definition BOT_TOKEN : jsstring := lit "BOT_TOKEN".
Definition DM_USER_ID : jsstring := lit "DM_USER_ID".
Definition REQUIRED_ENV_VARS : list jsstring := [BOT_TOKEN; DM_USER_ID].

(** [CONFIG.REQUIRED_ENV_VARS.filter((varName) => !process.env[varName])] *)
Definition missingVars (env : Env) : list jsstring :=
  List.filter (fun varName => negb (truthy (env !! varName))) REQUIRED_ENV_VARS.

(** ** notification-bot.js *)

Module Sender.

Module EXIT_CODES.
Definition SUCCESS : Z := 0.
Definition NO_MESSAGE : Z := 1.
Definition MISSING_ENV : Z := 2.
Definition DISCORD_ERROR : Z := 3.
Definition STDIN_ERROR : Z := 4.
End EXIT_CODES.

Definition validateEnvironment (env : Env) : Outcome unit :=
  let missing := missingVars env in
  if 0 <? length missing
  then Thrown (Error (lit "Missing required environment variables: "
                        ++ join (lit ", ") missing))
  else Returned tt.

(** Events of the standard-input stream. *)
Inductive StdinEvent : Type :=
| OnData (chunk : jsstring)
| OnEnd
| OnError (e : JsError).

Record StdinState : Type := mkStdin {
  input : jsstring;
  promise : Promise jsstring
}.

(** The three listeners registered by [readStdin]. *)
Definition onStdin (st : StdinState) (ev : StdinEvent) : StdinState :=
  match ev with
  | OnData chunk =>
      {| input := input st ++ chunk; promise := promise st |}
  | OnEnd =>
      let trimmedInput := trim (input st) in
      let p :=
        if negb (truthy (Some trimmedInput))
        then reject (promise st) (Error (lit "No message input received"))
        else promise st in
      {| input := input st; promise := resolve p trimmedInput |}
  | OnError error =>
      {| input := input st;
         promise := reject (promise st)
                      (Error (lit "Failed to read from stdin: " ++ message error)) |}
  end.

Definition readStdin (stream : list StdinEvent) : Promise jsstring :=
  promise (fold_left onStdin stream {| input := []; promise := Pending |}).

(** The platform's answers during one run of the sender. *)
Record World : Type := mkWorld {
  w_login : LoginOutcome;
  w_tag : jsstring;
  w_user : UserLookup;
  w_send : option JsError
}.

(** The body of [sendDM]'s [try] block. *)
Definition sendDM_try (w : World) (userId : option jsstring) (msg : jsstring)
  : list Event * Outcome unit :=
  match w_user w with
  | UserFault e => ([UsersFetch userId], Thrown e)
  | UserNull =>
      ([UsersFetch userId],
       Thrown (Error (lit "User " ++ template userId ++ lit " not found")))
  | UserFound =>
      match w_send w with
      | Some e => ([UsersFetch userId; UserSend msg], Thrown e)
      | None => ([UsersFetch userId; UserSend msg], Returned tt)
      end
  end.

Definition sendDM (env : Env) (w : World) (msg : jsstring)
  : list Event * Outcome unit :=
  let userId := env !! DM_USER_ID in
  match sendDM_try w userId msg with
  | (t, Thrown error) =>
      (t, Thrown (Error (lit "Failed to send DM: " ++ message error)))
  | (t, Returned _) => (t, Returned tt)
  end.

(** The [catch] block of [main]. *)
Definition main_catch (error : JsError) : list Event :=
  let exitCode :=
    if includes (message error) (lit "environment variables")
    then EXIT_CODES.MISSING_ENV
    else if includes (message error) (lit "stdin")
    then EXIT_CODES.STDIN_ERROR
    else EXIT_CODES.DISCORD_ERROR in
  [ConsoleError [message error]; ProcessExit exitCode].

(** The ["shardReady"] listener. *)
Definition onShardReady (env : Env) (w : World) (msg : jsstring) : list Event :=
  ConsoleLog [lit "Logged in as " ++ w_tag w] ::
  match sendDM env w msg with
  | (t, Returned _) =>
      t ++ [ClientDestroy; ProcessExit EXIT_CODES.SUCCESS]
  | (t, Thrown error) =>
      t ++ [ConsoleError [message error]; ClientDestroy;
            ProcessExit EXIT_CODES.DISCORD_ERROR]
  end.

(** The client ["error"] listener. *)
Definition onClientError (error : JsError) : list Event :=
  [ConsoleError [lit "Discord client error:"; message error];
   ClientDestroy; ProcessExit EXIT_CODES.DISCORD_ERROR].

(** The trace of one run.  A run whose standard input never ends stays
    suspended at [await readStdin()] and produces no event.  When
    [client.login] rejects, the [ClientDestroy] is the one discord.js makes
    before it rethrows.  Both listeners are registered before the login and
    stay registered: with [LoginInterleaved] they take turns, each
    suspended at its own [await]s, the platform answers the ["shardReady"]
    listener as [w] says, and the first [process.exit] ends the run. *)
Definition main (env : Env) (stream : list StdinEvent) (w : World) : list Event :=
  match validateEnvironment env with
  | Thrown error => main_catch error
  | Returned _ =>
      match readStdin stream with
      | Pending => []
      | Rejected error => main_catch error
      | Fulfilled msg =>
          NewClient :: ClientLogin (env !! BOT_TOKEN) ::
          match w_login w with
          | LoginRejected error => ClientDestroy :: main_catch error
          | LoginReady => onShardReady env w msg
          | LoginAsyncFault error => onClientError error
          | LoginInterleaved sched =>
              untilExit (interleave onClientError sched (onShardReady env w msg) [])
          end
      end
  end.

End Sender.

(** ** purge-conversation.js *)

Module Purger.

Module EXIT_CODES.
Definition SUCCESS : Z := 0.
Definition MISSING_ENV : Z := 1.
Definition DISCORD_ERROR : Z := 2.
Definition RATE_LIMIT : Z := 3.
End EXIT_CODES.

Module RATE_LIMIT.
Definition DELAY_MS : nat := 1000.
Definition BATCH_SIZE : nat := 50.
End RATE_LIMIT.

Definition validateEnvironment (env : Env) : Outcome unit :=
  let missing := missingVars env in
  if 0 <? length missing
  then Thrown (Error (lit "Missing required environment variables: "
                        ++ join (lit ", ") missing))
  else Returned tt.

(** The platform's answers during one run of the purger.  [w_channel] is
    the direct-message conversation when the run starts, newest message
    first; [w_fetchFault before] is the fault, if any, with which the page
    request carrying that cursor is answered. *)
Record World : Type := mkWorld {
  w_login : LoginOutcome;
  w_tag : jsstring;
  w_botId : Snowflake;
  w_user : UserLookup;
  w_createDM : option JsError;
  w_channel : list Message;
  w_fetchFault : option Snowflake -> option JsError
}.

(** The remote conversation together with the two local variables of
    [deleteBotMessagesFromDM]. *)
Record Machine : Type := mkMachine {
  channel : list Message;
  messagesDeleted : nat;
  lastMessageId : option Snowflake
}.

(** Platform side of [dmChannel.messages.fetch({ limit, before })]: the
    newest [limit] messages strictly older than [before]. *)
Definition olderThan (before : option Snowflake) (m : Message) : bool :=
  match before with
  | None => true
  | Some b => (m_id m <? b)%N
  end.

Definition visible (before : option Snowflake) (chan : list Message) : list Message :=
  List.filter (olderThan before) chan.

Definition fetchMessages (w : World) (chan : list Message)
    (before : option Snowflake) (limit : nat) : Outcome (list Message) :=
  match w_fetchFault w before with
  | Some e => Thrown e
  | None => Returned (firstn limit (visible before chan))
  end.

(** Platform side of a successful [message.delete()]. *)
Definition removeMessage (id : Snowflake) (chan : list Message) : list Message :=
  List.filter (fun m => negb (m_id m =? id)%N) chan.

(** [error.code === 50001] *)
Definition isRateLimitSignal (error : JsError) : bool :=
  match code error with
  | Some c => (c =? 50001)%Z
  | None => false
  end.

(** The [try]/[catch] around one [message.delete()] (lines 87-100). *)
Definition deleteMessage (m : Message) (st : Machine)
  : list Event * Machine * Outcome unit :=
  match m_delete m with
  | DeleteOk =>
      ([MessageDelete (m_id m);
        ConsoleLog [lit "Deleted message ID: " ++ showN (m_id m)];
        Delay RATE_LIMIT.DELAY_MS],
       {| channel := removeMessage (m_id m) (channel st);
          messagesDeleted := S (messagesDeleted st);
          lastMessageId := lastMessageId st |},
       Returned tt)
  | DeleteFault error =>
      if isRateLimitSignal error
      then ([MessageDelete (m_id m)], st, Thrown (Error (lit "Rate limit exceeded")))
      else ([MessageDelete (m_id m);
             ConsoleError [lit "Failed to delete message " ++ showN (m_id m) ++ lit ":";
                           message error]],
            st, Returned tt)
  end.

(** [for (const message of messages.values())] (lines 85-102). *)
Fixpoint forEachMessage (botId : Snowflake) (messages : list Message) (st : Machine)
  : list Event * Machine * Outcome unit :=
  match messages with
  | [] => ([], st, Returned tt)
  | m :: rest =>
      if (m_author m =? botId)%N
      then
        match deleteMessage m st with
        | (t1, st1, Thrown e) => (t1, st1, Thrown e)
        | (t1, st1, Returned _) =>
            let '(t2, st2, o) := forEachMessage botId rest st1 in
            (t1 ++ t2, st2, o)
        end
      else forEachMessage botId rest st
  end.

(** [messages.last().id]: reading [id] of [undefined] throws. *)
Definition lastId (messages : list Message) : Outcome Snowflake :=
  match last messages with
  | Some m => Returned (m_id m)
  | None =>
      Thrown (Error (lit "Cannot read properties of undefined (reading 'id')"))
  end.

(** [while (true)] (lines 78-105); [None] when the fuel runs out. *)
Fixpoint purgeLoop (fuel : nat) (w : World) (st : Machine)
  : option (list Event * Machine * Outcome nat) :=
  match fuel with
  | 0 => None
  | S fuel' =>
      let before := lastMessageId st in
      let request := MessagesFetch before RATE_LIMIT.BATCH_SIZE in
      match fetchMessages w (channel st) before RATE_LIMIT.BATCH_SIZE with
      | Thrown e => Some ([request], st, Thrown e)
      | Returned messages =>
          if length messages =? 0
          then Some ([request], st, Returned (messagesDeleted st))
          else
            match forEachMessage (w_botId w) messages st with
            | (t1, st1, Thrown e) => Some (request :: t1, st1, Thrown e)
            | (t1, st1, Returned _) =>
                let mark := MessagesLast (length messages) in
                match lastId messages with
                | Thrown e => Some (request :: t1 ++ [mark], st1, Thrown e)
                | Returned id =>
                    let st2 := {| channel := channel st1;
                                  messagesDeleted := messagesDeleted st1;
                                  lastMessageId := Some id |} in
                    match purgeLoop fuel' w st2 with
                    | None => None
                    | Some (t2, st3, o) => Some (request :: t1 ++ mark :: t2, st3, o)
                    end
                end
            end
      end
  end.

Definition initial (w : World) : Machine :=
  {| channel := w_channel w; messagesDeleted := 0; lastMessageId := None |}.

(** The body of the [try] block of [deleteBotMessagesFromDM]. *)
Definition deleteBotMessagesFromDM_try (fuel : nat) (w : World)
    (userId : option jsstring) : option (list Event * Machine * Outcome nat) :=
  match w_user w with
  | UserFault e => Some ([UsersFetch userId], initial w, Thrown e)
  | UserNull =>
      Some ([UsersFetch userId], initial w,
            Thrown (Error (lit "Cannot read properties of null (reading 'createDM')")))
  | UserFound =>
      match w_createDM w with
      | Some e => Some ([UsersFetch userId; UserCreateDM], initial w, Thrown e)
      | None =>
          match purgeLoop fuel w (initial w) with
          | None => None
          | Some (t, st, o) => Some (UsersFetch userId :: UserCreateDM :: t, st, o)
          end
      end
  end.

Definition deleteBotMessagesFromDM (fuel : nat) (w : World)
    (userId : option jsstring) : option (list Event * Machine * Outcome nat) :=
  match deleteBotMessagesFromDM_try fuel w userId with
  | None => None
  | Some (t, st, Returned n) => Some (t, st, Returned n)
  | Some (t, st, Thrown error) =>
      Some (t, st, Thrown (Error (lit "Failed to delete messages: " ++ message error)))
  end.

(** The [catch] block of [main]. *)
Definition main_catch (error : JsError) : list Event :=
  [ConsoleError [message error];
   ProcessExit (if includes (message error) (lit "environment variables")
                then EXIT_CODES.MISSING_ENV
                else EXIT_CODES.DISCORD_ERROR)].

(** The ["ready"] listener. *)
Definition onReady (fuel : nat) (env : Env) (w : World) : option (list Event) :=
  match deleteBotMessagesFromDM fuel w (env !! DM_USER_ID) with
  | None => None
  | Some (t, _, Returned deletedCount) =>
      Some (ConsoleLog [lit "Logged in as " ++ w_tag w] :: t ++
            [ConsoleLog [[9989%N] ++ lit " Finished. Deleted "
                           ++ showNat deletedCount ++ lit " messages."];
             ClientDestroy; ProcessExit EXIT_CODES.SUCCESS])
  | Some (t, _, Thrown error) =>
      Some (ConsoleLog [lit "Logged in as " ++ w_tag w] :: t ++
            [ConsoleError [lit "Error:"; message error];
             ClientDestroy;
             ProcessExit (if includes (message error) (lit "Rate limit")
                          then EXIT_CODES.RATE_LIMIT
                          else EXIT_CODES.DISCORD_ERROR)])
  end.

(** The client ["error"] listener. *)
Definition onClientError (error : JsError) : list Event :=
  [ConsoleError [lit "Discord client error:"; message error];
   ClientDestroy; ProcessExit EXIT_CODES.DISCORD_ERROR].

(** The trace of one run; [None] when the fuel given to the purge loop
    runs out.  When [client.login] rejects, the [ClientDestroy] is the one
    discord.js makes before it rethrows.  Both listeners are registered
    before the login and stay registered: with [LoginInterleaved] they take
    turns, each suspended at its own [await]s, the platform answers the
    ["ready"] listener as [w] says, and the first [process.exit] ends the
    run. *)
Definition main (fuel : nat) (env : Env) (w : World) : option (list Event) :=
  match validateEnvironment env with
  | Thrown error => Some (main_catch error)
  | Returned _ =>
      match w_login w with
      | LoginRejected error =>
          Some (NewClient :: ClientLogin (env !! BOT_TOKEN)
                :: ClientDestroy :: main_catch error)
      | LoginReady =>
          match onReady fuel env w with
          | None => None
          | Some t => Some (NewClient :: ClientLogin (env !! BOT_TOKEN) :: t)
          end
      | LoginAsyncFault error =>
          Some (NewClient :: ClientLogin (env !! BOT_TOKEN) :: onClientError error)
      | LoginInterleaved sched =>
          match onReady fuel env w with
          | None => None
          | Some t =>
              Some (NewClient :: ClientLogin (env !! BOT_TOKEN)
                    :: untilExit (interleave onClientError sched t []))
          end
      end
  end.

End Purger.

(** ** example-usage/ssl-check.sh *)

Module SslCheck.

(** Text is written as the code units the sender decodes from the script's
    UTF-8 output; [nl] is the line feed. *)
Definition nl : jsstring := [10%N].

(** Decimal rendering of a shell integer. *)
Definition showZ (z : Z) : jsstring := lit (NilZero.string_of_int (Z.to_int z)).

Definition THRESHOLD_DAYS : Z := 14.

(** Shell arithmetic is done on signed 64-bit integers. *)
Definition wrap64 (z : Z) : Z := (z + 2 ^ 63) mod 2 ^ 64 - 2 ^ 63.

(** [[[ "$days" -le "$THRESHOLD_DAYS" ]]] *)
Definition is_below_threshold (days : Z) : bool := (days <=? THRESHOLD_DAYS)%Z.

(** [$(( (expires_at - now) / 86400 ))], where [now] is the clock as read
    inside the function; shell division truncates towards zero. *)
Definition get_days_until_expiration (expires_at now : Z) : Z :=
  Z.quot (wrap64 (expires_at - now)) 86400.

Definition create_expiration_message (days : Z) (friendly_date : jsstring)
  : jsstring :=
  let plural := if (days =? 1)%Z then lit "day" else lit "days" in
  lit "# " ++ [55357; 56594]%N ++ lit " SSL Certificate Expiration Notice" ++ nl
  ++ nl
  ++ lit "Your SSL certificate will expire in **" ++ showZ days ++ lit " "
  ++ plural ++ lit "** (on " ++ friendly_date ++ lit ")." ++ nl
  ++ nl
  ++ lit "Please ensure to renew your certificate before expiration to maintain secure connections.".

Definition create_expired_message (friendly_date : jsstring) : jsstring :=
  lit "# " ++ [9888; 65039]%N ++ lit " SSL Certificate Expired" ++ nl
  ++ nl
  ++ lit "Your SSL certificate has expired on **" ++ friendly_date ++ lit "**." ++ nl
  ++ nl
  ++ [10071; 65039]%N
  ++ lit " **Immediate action required**: Please renew your certificate as soon as possible to restore secure connections.".

(** What the script does once both timestamps are known. *)
Inductive Step : Type :=
| Echo (line : jsstring)
| SendDm (message : jsstring).

(** The standard input [send_dm] gives to [npm run send]: the here-document
    holds the message followed by a line feed. *)
Definition send_dm_stdin (message : jsstring) : jsstring := message ++ nl.

(** The status check of [main] (lines 133-149).  [now] is the clock read by
    [main], [now'] the clock read again by [get_days_until_expiration], and
    [friendly_date] the output of [format_date]. *)
Definition check (expires_at now now' : Z) (friendly_date : jsstring) : list Step :=
  if (now <? expires_at)%Z
  then
    let days := get_days_until_expiration expires_at now' in
    Echo ([8505; 65039]%N ++ lit " Days until expiration: " ++ showZ days)
    :: (if is_below_threshold days
        then [Echo (lit "Threshold met. Notifying...");
              SendDm (create_expiration_message days friendly_date)]
        else [])
  else
    [Echo ([9888; 65039]%N ++ lit " Certificate expired on: " ++ friendly_date);
     SendDm (create_expired_message friendly_date)].

(** The messages handed to [send_dm], in order. *)
Definition notifications (steps : list Step) : list jsstring :=
  flat_map (fun s => match s with SendDm m => [m] | Echo _ => [] end) steps.

End SslCheck.

(** ** Concrete inputs used to exercise the statements below *)

Module Samples.

Definition env_ok : Env :=
  <[BOT_TOKEN := lit "token"]> (<[DM_USER_ID := lit "1001"]> ∅).

Definition env_no_token : Env := <[DM_USER_ID := lit "1001"]> ∅.

Definition invalid_token : JsError := Error (lit "An invalid token was provided.").

Definition sender_world (l : LoginOutcome) : Sender.World :=
  {| Sender.w_login := l; Sender.w_tag := lit "notifier#0001";
     Sender.w_user := UserFound; Sender.w_send := None |}.

(** The bot account is 7, the human recipient is 8. *)
Definition by_bot (id : N) (d : DeleteOutcome) : Message :=
  {| m_id := id; m_author := 7%N; m_delete := d |}.

Definition by_user (id : N) : Message :=
  {| m_id := id; m_author := 8%N; m_delete := DeleteOk |}.

Definition purger_world (l : LoginOutcome) (chan : list Message) : Purger.World :=
  {| Purger.w_login := l; Purger.w_tag := lit "notifier#0001";
     Purger.w_botId := 7%N; Purger.w_user := UserFound;
     Purger.w_createDM := None; Purger.w_channel := chan;
     Purger.w_fetchFault := fun _ => None |}.

Definition missing_permissions : JsError :=
  {| message := lit "Missing Access"; code := Some 50001%Z |}.

Definition unknown_message : JsError :=
  {| message := lit "Unknown Message"; code := Some 10008%Z |}.

Definition chan_clean : list Message :=
  [by_bot 9 DeleteOk; by_user 8; by_bot 7 DeleteOk].

Definition chan_users : list Message := [by_user 9; by_user 4].

Definition chan_fault : list Message :=
  [by_bot 9 DeleteOk; by_bot 8 (DeleteFault unknown_message); by_user 6;
   by_bot 5 DeleteOk].

Definition chan_limited : list Message :=
  [by_bot 9 DeleteOk; by_user 8; by_bot 7 (DeleteFault missing_permissions);
   by_bot 6 DeleteOk].

(** 120 bot messages, identifiers 120 down to 1: three pages. *)
Definition chan_long : list Message :=
  List.map (fun i => by_bot (N.of_nat (120 - i)) DeleteOk) (seq 0 120).

End Samples.

(** ** Vocabulary of the statements *)

Import Purger.

(** How many events of a trace satisfy [p]. *)
Definition count (p : Event -> bool) (t : list Event) : nat :=
  length (List.filter p t).

(** A conversation as the platform stores it: identifiers strictly
    decrease from the newest message to the oldest. *)
Definition newestFirst (chan : list Message) : Prop :=
  StronglySorted (fun a b => (m_id b < m_id a)%N) chan.

(** [message.author.id === client.user.id] *)
Definition isBot (botId : Snowflake) (m : Message) : bool :=
  (m_author m =? botId)%N.

(** The platform accepts the deletion of [m]. *)
Definition succeeds (m : Message) : bool :=
  match m_delete m with
  | DeleteOk => true
  | DeleteFault _ => false
  end.

(** The deletion of [m] fails with the rate-limit signal code. *)
Definition rateLimited (m : Message) : bool :=
  match m_delete m with
  | DeleteOk => false
  | DeleteFault e => isRateLimitSignal e
  end.

(** What handling one bot message without a rate-limit signal emits. *)
Definition messageEvents (m : Message) : list Event :=
  match m_delete m with
  | DeleteOk =>
      [MessageDelete (m_id m);
       ConsoleLog [lit "Deleted message ID: " ++ showN (m_id m)];
       Delay RATE_LIMIT.DELAY_MS]
  | DeleteFault error =>
      [MessageDelete (m_id m);
       ConsoleError [lit "Failed to delete message " ++ showN (m_id m) ++ lit ":";
                     message error]]
  end.

(** Marks of the cursor update. *)
Definition isLast (e : Event) : bool :=
  match e with MessagesLast _ => true | _ => false end.

(** The trace without the paging events. *)
Definition effects (t : list Event) : list Event :=
  List.filter (fun e => negb (isFetch e || isLast e)) t.

(** The identifiers passed to [message.delete()], in order. *)
Definition deletedIds (t : list Event) : list Snowflake :=
  flat_map (fun e => match e with MessageDelete id => [id] | _ => [] end) t.

(** The cursors of the page requests of a trace, in order. *)
Definition cursors (t : list Event) : list (option Snowflake) :=
  flat_map (fun e => match e with MessagesFetch c _ => [c] | _ => [] end) t.

(** The sizes of the pages whose last message was read, in order. *)
Definition pageSizes (t : list Event) : list nat :=
  flat_map (fun e => match e with MessagesLast n => [n] | _ => [] end) t.

(** [ceil(n / d)] *)
Definition ceilDiv (n d : nat) : nat := (n + d - 1) / d.

(** An event that is no paging event. *)
Definition quiet (e : Event) : Prop := isFetch e = false /\ isLast e = false.

(** [older a b]: a request with cursor [b] follows one with cursor [a] and
    asks for strictly older messages. *)
Definition older (a b : option Snowflake) : bool :=
  match a, b with
  | _, None => false
  | None, Some _ => true
  | Some x, Some y => (y <? x)%N
  end.

(** Every cursor of the list is [older] than the one before it. *)
Fixpoint descending (cs : list (option Snowflake)) : bool :=
  match cs with
  | a :: (b :: _) as rest => older a b && descending rest
  | _ => true
  end.

(** [lastMessageId = c] *)
Definition withCursor (c : option Snowflake) (st : Machine) : Machine :=
  {| channel := channel st; messagesDeleted := messagesDeleted st;
     lastMessageId := c |}.

(** [sameId x m]: the platform removes [x] when [m] is deleted. *)
Definition sameId (x m : Message) : bool := (m_id x =? m_id m)%N.

(** Delete calls and pauses, in order. *)
Definition pace (t : list Event) : list Event :=
  List.filter (fun e => isDelete e || isDelay e) t.

(** The lines written with [console.log]. *)
Definition logged (t : list Event) : list (list jsstring) :=
  flat_map (fun e => match e with ConsoleLog args => [args] | _ => [] end) t.

(** The recipient resolves, the conversation opens and every page request
    is answered. *)
Definition reachable (w : World) : Prop :=
  w_user w = UserFound /\ w_createDM w = None
  /\ forall c, w_fetchFault w c = None.

(** What [console.error] prints when deleting [m] fails with [error]. *)
Definition deleteFailureLog (m : Message) (error : JsError) : Event :=
  ConsoleError [lit "Failed to delete message " ++ showN (m_id m) ++ lit ":";
                message error].

(** If deleting [m] fails, the trace holds the line reporting it. *)
Definition faultLogged (t : list Event) (m : Message) : Prop :=
  match m_delete m with
  | DeleteOk => True
  | DeleteFault error => In (deleteFailureLog m error) t
  end.


(** Every code unit of [s] is whitespace. *)
Definition blank (s : jsstring) : bool := forallb isWhiteSpace s.

(** Neither the first nor the last code unit of [s] is whitespace. *)
Definition tight (s : jsstring) : bool :=
  match s with
  | [] => true
  | c :: _ => negb (isWhiteSpace c) && negb (isWhiteSpace (List.last s c))
  end.

Definition isSend (e : Event) : bool :=
  match e with UserSend _ => true | _ => false end.

(** Events that reach the chat platform. *)
Definition isNetwork (e : Event) : bool :=
  match e with
  | ClientLogin _ | UsersFetch _ | UserSend _ | UserCreateDM
  | MessagesFetch _ _ | MessageDelete _ => true
  | _ => false
  end.

(** The texts passed to [user.send], in order. *)
Definition sentTexts (t : list Event) : list jsstring :=
  flat_map (fun e => match e with UserSend text => [text] | _ => [] end) t.

(** The world of a later run: the same platform, with the conversation as
    an earlier run left it. *)
Definition rerun (w : World) (chan : list Message) : World :=
  {| w_login := w_login w; w_tag := w_tag w; w_botId := w_botId w;
     w_user := w_user w; w_createDM := w_createDM w; w_channel := chan;
     w_fetchFault := w_fetchFault w |}.

(** [guardedBy a x seen t]: the first [x]-event of [t], if any, comes after
    an [a]-event ([seen] says that one already happened before [t]). *)
Fixpoint guardedBy (a x : Event -> bool) (seen : bool) (t : list Event) : bool :=
  match t with
  | [] => true
  | e :: rest =>
      if a e then true
      else if x e then seen
      else guardedBy a x seen rest
  end.

(** What happens once the client has been constructed. *)
Fixpoint afterNewClient (t : list Event) : list Event :=
  match t with
  | [] => []
  | NewClient :: rest => rest
  | _ :: rest => afterNewClient rest
  end.

(** In [t], a client that was constructed is destroyed before the process
    exits. *)
Definition destroyedBeforeExit (t : list Event) : bool :=
  guardedBy isDestroy isExit false (afterNewClient t).

Definition isClientError (turn : Turn) : bool :=
  match turn with ClientError _ => true | _ => false end.



Definition isSuccessExit (e : Event) : bool :=
  match e with ProcessExit c => (c =? 0)%Z | _ => false end.

(** Both validators throw one error that names [names], and both programs
    log it and exit, the sender with code 2 and the purger with code 1,
    without doing anything else. *)
Definition failsNaming (env : Env) (names : jsstring) : Prop :=
  let msg := lit "Missing required environment variables: " ++ names in
  Sender.validateEnvironment env = Thrown (Error msg)
  /\ Purger.validateEnvironment env = Thrown (Error msg)
  /\ (forall stream w,
        Sender.main env stream w = [ConsoleError [msg]; ProcessExit 2])
  /\ (forall fuel w,
        Purger.main fuel env w = Some [ConsoleError [msg]; ProcessExit 1]).

(** ** Environment validation *)

Example missingVars_subsets :
  missingVars ∅ = [BOT_TOKEN; DM_USER_ID]
  /\ missingVars Samples.env_no_token = [BOT_TOKEN]
  /\ missingVars (<[BOT_TOKEN := []]> Samples.env_ok) = [BOT_TOKEN]
  /\ missingVars (<[BOT_TOKEN := lit "token"]> ∅) = [DM_USER_ID]
  /\ missingVars Samples.env_ok = [].
Proof. repeat split. Qed.

Lemma missingVars_cases (env : Env) :
  missingVars env = [] \/ missingVars env = [BOT_TOKEN]
  \/ missingVars env = [DM_USER_ID] \/ missingVars env = [BOT_TOKEN; DM_USER_ID].
Proof.
  unfold missingVars, REQUIRED_ENV_VARS. simpl.
  destruct (truthy (env !! BOT_TOKEN)), (truthy (env !! DM_USER_ID)); simpl; auto.
Qed.

Lemma missingVars_spec (env : Env) (k : jsstring) :
  In k (missingVars env) <-> In k REQUIRED_ENV_VARS /\ truthy (env !! k) = false.
Proof.
  unfold missingVars. rewrite filter_In, negb_true_iff. reflexivity.
Qed.

(** C6. For each of the four subsets of the two required keys that can
    be absent or empty in the environment, both validators throw one error
    whose message names exactly the keys of that subset, all of them, the
    sender logs it and exits with code 2 and the purger with code 1 before
    any client is built or any network call is made; with no key missing
    both validators return normally. *)
Theorem validateEnvironment_names_every_missing_key (env : Env) :
  match truthy (env !! lit "BOT_TOKEN"), truthy (env !! lit "DM_USER_ID") with
  | true, true =>
      Sender.validateEnvironment env = Returned tt
      /\ Purger.validateEnvironment env = Returned tt
  | false, true => failsNaming env (lit "BOT_TOKEN")
  | true, false => failsNaming env (lit "DM_USER_ID")
  | false, false => failsNaming env (lit "BOT_TOKEN, DM_USER_ID")
  end.
Proof.
  unfold failsNaming, Sender.main, Purger.main, Sender.validateEnvironment,
    Purger.validateEnvironment, missingVars, REQUIRED_ENV_VARS. simpl.
  change BOT_TOKEN with (lit "BOT_TOKEN"). change DM_USER_ID with (lit "DM_USER_ID").
  destruct (truthy (env !! lit "BOT_TOKEN")), (truthy (env !! lit "DM_USER_ID"));
    repeat split.
Qed.

(** ** Reading standard input *)

Lemma onStdin_data (chunks : list jsstring) (st : Sender.StdinState) :
  fold_left Sender.onStdin (List.map Sender.OnData chunks) st
  = {| Sender.input := Sender.input st ++ List.concat chunks;
       Sender.promise := Sender.promise st |}.
Proof.
  revert st. induction chunks as [| c chunks IH]; intros st; simpl.
  - rewrite app_nil_r. destruct st; reflexivity.
  - rewrite IH. simpl. rewrite <- app_assoc. reflexivity.
Qed.

Lemma onStdin_rejected_stays (stream : list Sender.StdinEvent)
    (st : Sender.StdinState) (e : JsError) :
  Sender.promise st = Rejected e ->
  Sender.promise (fold_left Sender.onStdin stream st) = Rejected e.
Proof.
  revert st. induction stream as [| ev stream IH]; intros st H; simpl; [exact H |].
  apply IH. destruct ev; simpl; rewrite H; try reflexivity.
  destruct (negb _); reflexivity.
Qed.

Lemma readStdin_blank (chunks : list jsstring) (later : list Sender.StdinEvent) :
  trim (List.concat chunks) = [] ->
  Sender.readStdin (List.map Sender.OnData chunks ++ Sender.OnEnd :: later)
  = Rejected (Error (lit "No message input received")).
Proof.
  intros Hblank. unfold Sender.readStdin.
  rewrite fold_left_app, onStdin_data. simpl.
  apply onStdin_rejected_stays. simpl. rewrite Hblank. reflexivity.
Qed.

(** C10. When the drained input trims to the empty string, the ["end"]
    listener calls [reject] and then [resolve]; the promise keeps the first
    settlement, so [readStdin] yields the empty-input rejection whatever the
    stream does afterwards. *)
Theorem readStdin_blank_input_rejects
    (chunks : list jsstring) (later : list Sender.StdinEvent) :
  trim (List.concat chunks) = [] ->
  Sender.readStdin (List.map Sender.OnData chunks ++ Sender.OnEnd :: later)
  = resolve (reject Pending (Error (lit "No message input received"))) []
  /\ Sender.readStdin (List.map Sender.OnData chunks ++ Sender.OnEnd :: later)
     = Rejected (Error (lit "No message input received")).
Proof.
  intros Hblank. rewrite (readStdin_blank chunks later Hblank).
  split; reflexivity.
Qed.

Lemma readStdin_blank_input_rejects_witness :
  trim (List.concat [[32; 9]; [10; 160]; [8232]]%N) = []
  /\ Sender.readStdin
       (List.map Sender.OnData [[32; 9]; [10; 160]; [8232]]%N
          ++ Sender.OnEnd :: [Sender.OnData (lit "late")])
     = Rejected (Error (lit "No message input received")).
Proof.
  split; [reflexivity |].
  apply (readStdin_blank_input_rejects [[32; 9]; [10; 160]; [8232]]%N
           [Sender.OnData (lit "late")]).
  reflexivity.
Defined.

(** C1. With a valid environment and a standard input that trims to the
    empty string, the sender stops before a client is built, but the exit
    code it passes to [process.exit] is [DISCORD_ERROR] (3), not
    [NO_MESSAGE] (1): the rejection message contains neither
    ["environment variables"] nor ["stdin"]. *)
Theorem sender_blank_input_exits_with_discord_error
    (env : Env) (chunks : list jsstring) (later : list Sender.StdinEvent)
    (w : Sender.World) :
  missingVars env = [] ->
  trim (List.concat chunks) = [] ->
  Sender.main env (List.map Sender.OnData chunks ++ Sender.OnEnd :: later) w
  = [ConsoleError [lit "No message input received"];
     ProcessExit Sender.EXIT_CODES.DISCORD_ERROR]
  /\ exitCodes
       (Sender.main env (List.map Sender.OnData chunks ++ Sender.OnEnd :: later) w)
     <> [Sender.EXIT_CODES.NO_MESSAGE].
Proof.
  intros Henv Hblank.
  assert (Sender.main env (List.map Sender.OnData chunks ++ Sender.OnEnd :: later) w
          = [ConsoleError [lit "No message input received"];
             ProcessExit Sender.EXIT_CODES.DISCORD_ERROR]) as H.
  { unfold Sender.main, Sender.validateEnvironment. rewrite Henv. simpl.
    rewrite (readStdin_blank chunks later Hblank). reflexivity. }
  split; [exact H |]. rewrite H. discriminate.
Qed.

Lemma sender_blank_input_exits_with_discord_error_witness :
  exitCodes
    (Sender.main Samples.env_ok
       (List.map Sender.OnData [[32; 10]%N] ++ Sender.OnEnd :: [])
       (Samples.sender_world LoginReady))
  = [3%Z].
Proof.
  destruct (sender_blank_input_exits_with_discord_error Samples.env_ok
              [[32; 10]%N] [] (Samples.sender_world LoginReady)) as [H _];
    [vm_compute; reflexivity | reflexivity |].
  rewrite H. reflexivity.
Defined.

(** ** Sending *)

Example sender_hello_world :
  Sender.main Samples.env_ok
    [Sender.OnData (lit "Hello, "); Sender.OnData (lit "World!" ++ [10%N]);
     Sender.OnEnd]
    (Samples.sender_world LoginReady)
  = [NewClient; ClientLogin (Some (lit "token"));
     ConsoleLog [lit "Logged in as notifier#0001"];
     UsersFetch (Some (lit "1001")); UserSend (lit "Hello, World!");
     ClientDestroy; ProcessExit 0].
Proof. reflexivity. Qed.

(** ** Client teardown *)

Example login_rejection_invalid_token :
  Sender.main Samples.env_ok [Sender.OnData (lit "Hello, World!"); Sender.OnEnd]
    (Samples.sender_world (LoginRejected Samples.invalid_token))
  = [NewClient; ClientLogin (Some (lit "token")); ClientDestroy;
     ConsoleError [lit "An invalid token was provided."]; ProcessExit 3]
  /\ Purger.main 1 Samples.env_ok
       (Samples.purger_world (LoginRejected Samples.invalid_token) Samples.chan_clean)
     = Some [NewClient; ClientLogin (Some (lit "token")); ClientDestroy;
             ConsoleError [lit "An invalid token was provided."]; ProcessExit 2].
Proof. split; reflexivity. Qed.

(** *** Listeners taking turns *)

Lemma nextSegment_app (t : list Event) :
  t = fst (nextSegment t) ++ snd (nextSegment t).
Proof.
  induction t as [| e t IH]; [reflexivity |].
  simpl. destruct (isAwaited e); [reflexivity |].
  destruct (nextSegment t) as [seg rest]. simpl in *. f_equal. exact IH.
Qed.

Lemma count_cons (p : Event -> bool) (e : Event) (t : list Event) :
  count p (e :: t) = (if p e then 1 else 0) + count p t.
Proof. unfold count. simpl. destruct (p e); reflexivity. Qed.

Lemma count_nil (p : Event -> bool) : count p [] = 0.
Proof. reflexivity. Qed.

Lemma count_app (p : Event -> bool) (a b : list Event) :
  count p (a ++ b) = count p a + count p b.
Proof. unfold count. rewrite List.filter_app, length_app. reflexivity. Qed.

Lemma count_concat_snoc (p : Event -> bool) (ps : list (list Event)) (q : list Event) :
  count p (List.concat (ps ++ [q])) = count p (List.concat ps) + count p q.
Proof. rewrite concat_app, count_app. simpl. rewrite app_nil_r. reflexivity. Qed.

(** Taking turns neither loses nor repeats an event. *)
Lemma interleave_count (p : Event -> bool) (onError : JsError -> list Event)
    (k : nat) (sched : list Turn) :
  (forall e, count p (onError e) = k) ->
  forall listener pending,
    count p (interleave onError sched listener pending)
    = count p listener + count p (List.concat pending)
      + k * length (List.filter isClientError sched).
Proof.
  intros Hk. induction sched as [| turn sched IH]; intros listener pending; simpl.
  - rewrite count_app. lia.
  - destruct turn as [| e |]; simpl.
    + pose proof (nextSegment_app listener) as E.
      destruct (nextSegment listener) as [seg rest]. simpl in E.
      rewrite count_app, IH, E, count_app. lia.
    + pose proof (nextSegment_app (onError e)) as E.
      pose proof (Hk e) as Hq.
      destruct (nextSegment (onError e)) as [seg rest]. simpl in E.
      rewrite E, count_app in Hq.
      rewrite count_app, IH, count_concat_snoc. lia.
    + destruct pending as [| q qs]; [apply IH |].
      pose proof (nextSegment_app q) as E.
      destruct (nextSegment q) as [seg rest]. simpl in E.
      rewrite count_app, IH. simpl. rewrite E, !count_app. lia.
Qed.

Lemma interleave_In (onError : JsError -> list Event) (sched : list Turn) (x : Event) :
  forall listener pending,
    In x (interleave onError sched listener pending) ->
    In x listener \/ In x (List.concat pending) \/ exists e, In x (onError e).
Proof.
  induction sched as [| turn sched IH]; intros listener pending; simpl.
  - intros [H | H]%in_app_or; auto.
  - destruct turn as [| e |].
    + pose proof (nextSegment_app listener) as E.
      destruct (nextSegment listener) as [seg rest]. simpl in E.
      intros [H | H]%in_app_or.
      * left. rewrite E. apply in_or_app. auto.
      * destruct (IH _ _ H) as [K | K]; [| auto].
        left. rewrite E. apply in_or_app. auto.
    + pose proof (nextSegment_app (onError e)) as E.
      destruct (nextSegment (onError e)) as [seg rest]. simpl in E.
      intros [H | H]%in_app_or.
      * right. right. exists e. rewrite E. apply in_or_app. auto.
      * destruct (IH _ _ H) as [K | [K | K]]; auto.
        rewrite concat_app in K. apply in_app_or in K as [K | K]; [auto |].
        simpl in K. rewrite app_nil_r in K.
        right. right. exists e. rewrite E. apply in_or_app. auto.
    + destruct pending as [| q qs]; [apply IH |].
      pose proof (nextSegment_app q) as E.
      destruct (nextSegment q) as [seg rest]. simpl in E.
      intros [H | H]%in_app_or.
      * right. left. simpl. rewrite E. apply in_or_app. left.
        apply in_or_app. auto.
      * destruct (IH _ _ H) as [K | [K | K]]; auto.
        right. left. simpl in *. rewrite E.
        apply in_app_or in K as [K | K]; apply in_or_app; [left | auto].
        apply in_or_app. auto.
Qed.

(** The ready listener always gets to run all of its events. *)
Lemma interleave_listener (onError : JsError -> list Event) (sched : list Turn)
    (x : Event) :
  forall listener pending,
    In x listener -> In x (interleave onError sched listener pending).
Proof.
  induction sched as [| turn sched IH]; intros listener pending Hx; simpl.
  - apply in_or_app. auto.
  - destruct turn as [| e |].
    + pose proof (nextSegment_app listener) as E.
      destruct (nextSegment listener) as [seg rest]. simpl in E.
      rewrite E in Hx. apply in_app_or in Hx as [H | H]; apply in_or_app; auto.
    + destruct (nextSegment (onError e)) as [seg rest].
      apply in_or_app. right. apply IH, Hx.
    + destruct pending as [| q qs]; [apply IH, Hx |].
      destruct (nextSegment q) as [seg rest].
      apply in_or_app. right. apply IH, Hx.
Qed.

(** *** Before the first exit *)

Lemma guardedBy_seen (a x : Event -> bool) (t : list Event) :
  guardedBy a x true t = true.
Proof.
  induction t as [| e t IH]; [reflexivity |].
  simpl. destruct (a e), (x e); auto.
Qed.

Lemma guardedBy_app (a x : Event -> bool) (seen : bool) (s t : list Event) :
  guardedBy a x seen (s ++ t)
  = guardedBy a x seen s && (existsb a s || guardedBy a x seen t).
Proof.
  induction s as [| e s IH]; [reflexivity |].
  simpl. destruct (a e); [reflexivity |]. simpl.
  destruct (x e); [| exact IH].
  destruct seen; [| reflexivity].
  rewrite guardedBy_seen, orb_true_r. reflexivity.
Qed.

Lemma guardedBy_concat (a x : Event -> bool) (ps : list (list Event)) (t : list Event) :
  Forall (fun p => guardedBy a x false p = true) ps ->
  guardedBy a x false t = true ->
  guardedBy a x false (List.concat ps ++ t) = true.
Proof.
  intros Hps Ht. induction Hps as [| p ps Hp _ IH]; [exact Ht |].
  simpl. rewrite <- app_assoc, guardedBy_app, Hp, IH. apply orb_true_r.
Qed.

Lemma guardedBy_split (a x : Event -> bool) (s t : list Event) :
  guardedBy a x false (s ++ t) = true ->
  guardedBy a x false s = true
  /\ (existsb a s = true \/ guardedBy a x false t = true).
Proof.
  rewrite guardedBy_app. intros [H1 H2]%andb_prop. split; [exact H1 |].
  apply orb_prop in H2. exact H2.
Qed.

(** If in every listener the first [x]-event comes after an [a]-event of
    that listener, the same holds of the run in which they take turns. *)
Lemma interleave_guarded (a x : Event -> bool) (onError : JsError -> list Event)
    (sched : list Turn) :
  (forall e, guardedBy a x false (onError e) = true) ->
  forall listener pending,
    guardedBy a x false listener = true ->
    Forall (fun p => guardedBy a x false p = true) pending ->
    guardedBy a x false (interleave onError sched listener pending) = true.
Proof.
  intros Herr. induction sched as [| turn sched IH]; intros listener pending Hl Hp; simpl.
  - apply guardedBy_concat; assumption.
  - destruct turn as [| e |].
    + pose proof (nextSegment_app listener) as E.
      destruct (nextSegment listener) as [seg rest]. simpl in E.
      rewrite E in Hl. apply guardedBy_split in Hl as [Hseg [Ha | Hrest]];
        rewrite guardedBy_app, Hseg; simpl.
      * rewrite Ha. reflexivity.
      * rewrite (IH _ _ Hrest Hp). apply orb_true_r.
    + pose proof (nextSegment_app (onError e)) as E.
      pose proof (Herr e) as He.
      destruct (nextSegment (onError e)) as [seg rest]. simpl in E.
      rewrite E in He. apply guardedBy_split in He as [Hseg [Ha | Hrest]];
        rewrite guardedBy_app, Hseg; simpl.
      * rewrite Ha. reflexivity.
      * rewrite (IH _ _ Hl); [apply orb_true_r |].
        apply Forall_app. split; [exact Hp | constructor; [exact Hrest | constructor]].
    + destruct pending as [| q qs]; [apply IH; assumption |].
      pose proof (nextSegment_app q) as E.
      destruct (nextSegment q) as [seg rest]. simpl in E.
      apply Forall_cons_iff in Hp as [Hq Hqs].
      rewrite E in Hq. apply guardedBy_split in Hq as [Hseg [Ha | Hrest]];
        rewrite guardedBy_app, Hseg; simpl.
      * rewrite Ha. reflexivity.
      * rewrite (IH _ _ Hl); [apply orb_true_r |].
        constructor; assumption.
Qed.

Lemma untilExit_guarded (a : Event -> bool) (t : list Event) :
  guardedBy a isExit false t = true ->
  guardedBy a isExit false (untilExit t) = true.
Proof.
  induction t as [| e t IH]; [reflexivity |].
  destruct e; simpl; try (destruct (a _); [reflexivity | exact IH]).
  destruct (a _); [reflexivity | discriminate].
Qed.

Lemma untilExit_count (p : Event -> bool) (t : list Event) :
  count p (untilExit t) <= count p t.
Proof.
  induction t as [| e t IH]; [reflexivity |].
  destruct e; simpl; unfold count in *; simpl;
    try (destruct (p _); simpl; lia).
Qed.

(** A run that holds a [process.exit] call is cut right after the first
    one. *)
Lemma untilExit_shape (t : list Event) :
  (exists c, In (ProcessExit c) t) ->
  exists P c rest,
    untilExit t = P ++ [ProcessExit c]
    /\ t = P ++ ProcessExit c :: rest
    /\ exitCodes P = [].
Proof.
  induction t as [| e t IH]; intros (c & Hc); [destruct Hc |].
  destruct e;
    try (destruct Hc as [Hc | Hc]; [discriminate |];
         destruct (IH (ex_intro _ c Hc)) as (P & c' & rest & E1 & E2 & E3);
         eexists (_ :: P), c', rest; simpl; rewrite E1, E2 at 1;
         repeat split; assumption).
  match goal with
  | |- context [untilExit (ProcessExit ?k :: t)] => exists [], k, t
  end.
  repeat split.
Qed.

Lemma exitCodes_app (a b : list Event) :
  exitCodes (a ++ b) = exitCodes a ++ exitCodes b.
Proof. unfold exitCodes. apply flat_map_app. Qed.

Lemma existsb_count (p : Event -> bool) (t : list Event) :
  existsb p t = true -> 1 <= count p t.
Proof.
  unfold count. induction t as [| e t IH]; simpl; [discriminate |].
  destruct (p e); simpl; [lia | exact IH].
Qed.

(** In a run cut at its first exit, that exit comes after an [a]-event as
    soon as every listener has one before its own. *)
Lemma guarded_prefix (a x : Event -> bool) (P rest : list Event) (e : Event) :
  guardedBy a x false (P ++ e :: rest) = true ->
  a e = false -> x e = true ->
  existsb a P = true.
Proof.
  intros H Ha Hx. apply guardedBy_split in H as [_ [H | H]]; [exact H |].
  simpl in H. rewrite Ha, Hx in H. discriminate.
Qed.

(** What both programs' listeners have in common: each destroys the client
    once, and before its own exit.  When they take turns, the run ends at
    the first exit, with at least one [client.destroy] call before it and at
    most one for each listener that ran. *)
Lemma interleaved_teardown (onError : JsError -> list Event) (sched : list Turn)
    (listener : list Event) :
  (forall e, guardedBy isDestroy isExit false (onError e) = true) ->
  (forall e, count isDestroy (onError e) = 1) ->
  (forall e, count isNewClient (onError e) = 0) ->
  guardedBy isDestroy isExit false listener = true ->
  count isDestroy listener = 1 ->
  count isNewClient listener = 0 ->
  (exists c, In (ProcessExit c) listener) ->
  exists P c rest,
    untilExit (interleave onError sched listener []) = P ++ [ProcessExit c]
    /\ interleave onError sched listener [] = P ++ ProcessExit c :: rest
    /\ exitCodes P = []
    /\ 1 <= count isDestroy P
    /\ count isDestroy P <= 1 + length (List.filter isClientError sched)
    /\ count isNewClient P = 0.
Proof.
  intros Gerr Derr Nerr Gl Dl Nl (c0 & Hc0).
  destruct (untilExit_shape (interleave onError sched listener []))
    as (P & c & rest & E1 & E2 & E3).
  { exists c0. apply interleave_listener, Hc0. }
  exists P, c, rest. split; [exact E1 |]. split; [exact E2 |]. split; [exact E3 |].
  pose proof (interleave_guarded isDestroy isExit onError sched Gerr listener []
                Gl (List.Forall_nil _)) as G.
  pose proof (interleave_count isDestroy onError 1 sched Derr listener []) as D.
  pose proof (interleave_count isNewClient onError 0 sched Nerr listener []) as N.
  rewrite E2 in G, D, N. rewrite count_app, count_cons in D, N.
  rewrite Dl in D. rewrite Nl in N.
  change (List.concat []) with (@nil Event) in D, N. rewrite count_nil in D, N.
  simpl in D, N.
  split; [| split; lia].
  apply existsb_count. eapply guarded_prefix; [exact G | |]; reflexivity.
Qed.

(** ** The purge loop *)

(** *** List facts *)

Lemma filter_absorb {A} (p q : A -> bool) (l : list A) :
  (forall x, In x l -> p x = true -> q x = true) ->
  List.filter p (List.filter q l) = List.filter p l.
Proof.
  induction l as [| a l IH]; intros H; simpl; [reflexivity |].
  destruct (q a) eqn:Q; simpl.
  - rewrite IH; [reflexivity | intros; apply H; simpl; auto].
  - destruct (p a) eqn:P.
    + rewrite (H a) in Q; [discriminate | simpl; auto | assumption].
    + apply IH. intros; apply H; simpl; auto.
Qed.

Lemma filter_shrinks {A} (p q : A -> bool) (l : list A) :
  length (List.filter p (List.filter q l)) <= length (List.filter p l).
Proof.
  induction l as [| a l IH]; simpl; [lia |].
  destruct (q a), (p a) eqn:P; simpl; rewrite ?P; simpl; lia.
Qed.

Lemma filter_all {A} (p : A -> bool) (l : list A) :
  (forall x, In x l -> p x = true) -> List.filter p l = l.
Proof.
  induction l as [| a l IH]; intros H; simpl; [reflexivity |].
  rewrite (H a) by (simpl; auto). f_equal. apply IH. intros; apply H; simpl; auto.
Qed.

Lemma filter_none {A} (p : A -> bool) (l : list A) :
  (forall x, In x l -> p x = false) -> List.filter p l = [].
Proof.
  induction l as [| a l IH]; intros H; simpl; [reflexivity |].
  rewrite (H a) by (simpl; auto). apply IH. intros; apply H; simpl; auto.
Qed.

Lemma filter_drops {A} (p : A -> bool) (l : list A) (x : A) :
  In x l -> p x = false -> length (List.filter p l) < length l.
Proof.
  induction l as [| a l IH]; intros Hin Hp; simpl in *; [contradiction |].
  pose proof (List.filter_length_le p l).
  destruct Hin as [-> | Hin].
  - rewrite Hp. lia.
  - specialize (IH Hin Hp). destruct (p a); simpl; lia.
Qed.

Lemma firstn_In {A} (n : nat) (l : list A) (x : A) : In x (firstn n l) -> In x l.
Proof.
  intros H. rewrite <- (firstn_skipn n l). apply in_or_app. left. exact H.
Qed.

(** *** One page *)

Lemma deleteMessage_cursor (m : Message) (st st' : Machine) t o :
  deleteMessage m st = (t, st', o) -> lastMessageId st' = lastMessageId st.
Proof.
  unfold deleteMessage. destruct (m_delete m) as [| e].
  - intros [= <- <- <-]. reflexivity.
  - destruct (isRateLimitSignal e); intros [= <- <- <-]; reflexivity.
Qed.

(** Deleting a message can only remove messages carrying its identifier. *)
Lemma deleteMessage_channel (m : Message) (st st' : Machine) t o :
  deleteMessage m st = (t, st', o) ->
  channel st' = channel st \/ channel st' = removeMessage (m_id m) (channel st).
Proof.
  unfold deleteMessage. destruct (m_delete m) as [| e].
  - intros [= <- <- <-]. right. reflexivity.
  - destruct (isRateLimitSignal e); intros [= <- <- <-]; left; reflexivity.
Qed.

Lemma forEachMessage_cursor botId (messages : list Message) :
  forall st t st' o,
    forEachMessage botId messages st = (t, st', o) ->
    lastMessageId st' = lastMessageId st.
Proof.
  induction messages as [| m rest IH]; intros st t st' o; simpl.
  - intros [= <- <- <-]. reflexivity.
  - destruct (m_author m =? botId)%N; [| apply IH].
    destruct (deleteMessage m st) as [[t1 st1] [[] | e]] eqn:D.
    + destruct (forEachMessage botId rest st1) as [[t2 st2] o2] eqn:F.
      intros [= <- <- <-]. rewrite (IH _ _ _ _ F).
      eapply deleteMessage_cursor; eassumption.
    + intros [= <- <- <-]. eapply deleteMessage_cursor; eassumption.
Qed.

(** Whatever a page deletes, no request sees more messages afterwards. *)
Lemma forEachMessage_shrinks botId (messages : list Message) (p : Message -> bool) :
  forall st t st' o,
    forEachMessage botId messages st = (t, st', o) ->
    length (List.filter p (channel st')) <= length (List.filter p (channel st)).
Proof.
  induction messages as [| m rest IH]; intros st t st' o; simpl.
  - intros [= <- <- <-]. lia.
  - destruct (m_author m =? botId)%N; [| apply IH].
    assert (forall t1 st1 o1, deleteMessage m st = (t1, st1, o1) ->
              length (List.filter p (channel st1))
              <= length (List.filter p (channel st))) as Hd.
    { intros t1 st1 o1 D.
      destruct (deleteMessage_channel _ _ _ _ _ D) as [-> | ->]; [lia |].
      apply filter_shrinks. }
    destruct (deleteMessage m st) as [[t1 st1] [[] | e]] eqn:D.
    + destruct (forEachMessage botId rest st1) as [[t2 st2] o2] eqn:F.
      intros [= <- <- <-]. specialize (IH _ _ _ _ F).
      specialize (Hd _ _ _ eq_refl). lia.
    + intros [= <- <- <-]. exact (Hd _ _ _ eq_refl).
Qed.

(** A request that selects none of the page's identifiers is answered the
    same before and after the page is processed. *)
Lemma forEachMessage_preserves botId (messages : list Message) (p : Message -> bool) :
  forall st t st' o,
    (forall m x, In m messages -> m_id x = m_id m -> p x = false) ->
    forEachMessage botId messages st = (t, st', o) ->
    List.filter p (channel st') = List.filter p (channel st).
Proof.
  induction messages as [| m rest IH]; intros st t st' o Hp; simpl.
  - intros [= <- <- <-]. reflexivity.
  - assert (forall m x, In m rest -> m_id x = m_id m -> p x = false) as Hrest
      by (intros; eapply Hp; [right |]; eassumption).
    destruct (m_author m =? botId)%N; [| apply IH; assumption].
    assert (forall t1 st1 o1, deleteMessage m st = (t1, st1, o1) ->
              List.filter p (channel st1) = List.filter p (channel st)) as Hd.
    { intros t1 st1 o1 D.
      destruct (deleteMessage_channel _ _ _ _ _ D) as [-> | ->]; [reflexivity |].
      apply filter_absorb. intros x _ Px.
      destruct (m_id x =? m_id m)%N eqn:E; [| reflexivity].
      apply N.eqb_eq in E. rewrite (Hp m x) in Px; [discriminate | left; reflexivity | exact E]. }
    destruct (deleteMessage m st) as [[t1 st1] [[] | e]] eqn:D.
    + destruct (forEachMessage botId rest st1) as [[t2 st2] o2] eqn:F.
      intros [= <- <- <-]. rewrite (IH _ _ _ _ Hrest F). exact (Hd _ _ _ eq_refl).
    + intros [= <- <- <-]. exact (Hd _ _ _ eq_refl).
Qed.

Lemma deleteMessage_quiet (m : Message) (st st' : Machine) t o :
  deleteMessage m st = (t, st', o) -> Forall quiet t.
Proof.
  unfold deleteMessage. destruct (m_delete m) as [| e].
  - intros [= <- <- <-]. repeat constructor.
  - destruct (isRateLimitSignal e); intros [= <- <- <-]; repeat constructor.
Qed.

(** Processing a page issues no page request and never reads the last
    message of a page. *)
Lemma forEachMessage_quiet botId (messages : list Message) :
  forall st t st' o,
    forEachMessage botId messages st = (t, st', o) -> Forall quiet t.
Proof.
  induction messages as [| m rest IH]; intros st t st' o; simpl.
  - intros [= <- <- <-]. constructor.
  - destruct (m_author m =? botId)%N; [| apply IH].
    destruct (deleteMessage m st) as [[t1 st1] [[] | e]] eqn:D.
    + destruct (forEachMessage botId rest st1) as [[t2 st2] o2] eqn:F.
      intros [= <- <- <-]. apply Forall_app. split.
      * eapply deleteMessage_quiet; eassumption.
      * eapply IH; eassumption.
    + intros [= <- <- <-]. eapply deleteMessage_quiet; eassumption.
Qed.

Lemma quiet_cursors (t : list Event) : Forall quiet t -> cursors t = [].
Proof.
  induction 1 as [| e t [Hf _] _ IH]; simpl; [reflexivity |].
  rewrite IH. destruct e; simpl in *; try reflexivity; discriminate.
Qed.

Lemma quiet_pageSizes (t : list Event) : Forall quiet t -> pageSizes t = [].
Proof.
  induction 1 as [| e t [_ Hl] _ IH]; simpl; [reflexivity |].
  rewrite IH. destruct e; simpl in *; try reflexivity; discriminate.
Qed.

Lemma quiet_effects (t : list Event) : Forall quiet t -> effects t = t.
Proof.
  intros H. apply filter_all. intros e He.
  rewrite List.Forall_forall in H. destruct (H e He) as [-> ->]. reflexivity.
Qed.

Lemma quiet_count_fetch (t : list Event) : Forall quiet t -> count isFetch t = 0.
Proof.
  intros H. unfold count. rewrite filter_none; [reflexivity |].
  intros e He. rewrite List.Forall_forall in H. apply (H e He).
Qed.

(** *** Termination *)

Lemma lastId_of_page (before : option Snowflake) (chan page : list Message) (n : nat) :
  page = firstn n (visible before chan) ->
  page <> [] ->
  exists m, last page = Some m /\ lastId page = Returned (m_id m)
            /\ In m page /\ In m chan /\ olderThan before m = true.
Proof.
  intros Hpage Hne.
  destruct (last page) as [m |] eqn:L; [| apply last_None in L; contradiction].
  exists m. unfold lastId. rewrite L.
  assert (In m page) as Hin.
  { apply last_Some in L as [l' ->]. apply in_or_app. right. left. reflexivity. }
  repeat split; try assumption; try reflexivity.
  - rewrite Hpage in Hin. apply firstn_In in Hin.
    apply filter_In in Hin. apply Hin.
  - rewrite Hpage in Hin. apply firstn_In in Hin.
    apply filter_In in Hin. apply Hin.
Qed.

(** The messages a request can still see form the loop's variant. *)
Lemma visible_decreases (before : option Snowflake) (chan chan' : list Message)
    (m : Message) :
  In m chan -> olderThan before m = true ->
  length (visible (Some (m_id m)) chan') <= length (visible (Some (m_id m)) chan) ->
  length (visible (Some (m_id m)) chan') < length (visible before chan).
Proof.
  intros Hin Hold Hle.
  assert (visible (Some (m_id m)) chan
          = List.filter (olderThan (Some (m_id m))) (visible before chan)) as E.
  { unfold visible. symmetry. apply filter_absorb. intros x _ Hx.
    destruct before as [b |]; [| reflexivity]. simpl in *.
    apply N.ltb_lt in Hx, Hold. apply N.ltb_lt. lia. }
  rewrite E in Hle.
  assert (length (List.filter (olderThan (Some (m_id m))) (visible before chan))
          < length (visible before chan)); [| lia].
  apply filter_drops with (x := m).
  - apply filter_In. split; assumption.
  - simpl. apply N.ltb_irrefl.
Qed.

Lemma purgeLoop_terminates (w : World) (fuel : nat) :
  forall st,
    length (visible (lastMessageId st) (channel st)) < fuel ->
    exists r, purgeLoop fuel w st = Some r.
Proof.
  induction fuel as [| fuel IH]; intros st Hfuel; [lia |].
  simpl. unfold fetchMessages.
  destruct (w_fetchFault w (lastMessageId st)); [eauto |].
  set (page := firstn RATE_LIMIT.BATCH_SIZE (visible (lastMessageId st) (channel st))).
  destruct (length page =? 0) eqn:Hsize; [eauto |].
  assert (page <> []) as Hne by (intros E; rewrite E in Hsize; discriminate).
  destruct (forEachMessage (w_botId w) page st) as [[t1 st1] [[] | e]] eqn:F; [| eauto].
  destruct (lastId_of_page (lastMessageId st) (channel st) page _ eq_refl Hne) as (m & _ & -> & _ & Hin & Hold).
  destruct (IH {| channel := channel st1; messagesDeleted := messagesDeleted st1;
                  lastMessageId := Some (m_id m) |}) as [[[t2 st3] o] ->]; [| eauto].
  simpl.
  pose proof (forEachMessage_shrinks _ _ (olderThan (Some (m_id m))) _ _ _ _ F) as Hle.
  pose proof (visible_decreases _ _ _ _ Hin Hold Hle). lia.
Qed.

Lemma purgeLoop_descends (w : World) (fuel : nat) :
  forall st t st' o,
    purgeLoop fuel w st = Some (t, st', o) ->
    exists cs, cursors t = lastMessageId st :: cs
               /\ descending (lastMessageId st :: cs) = true.
Proof.
  induction fuel as [| fuel IH]; intros st t st' o; simpl; [discriminate |].
  unfold fetchMessages.
  destruct (w_fetchFault w (lastMessageId st));
    [intros [= <- <- <-]; exists []; split; reflexivity |].
  set (page := firstn RATE_LIMIT.BATCH_SIZE (visible (lastMessageId st) (channel st))).
  destruct (length page =? 0) eqn:Hsize;
    [intros [= <- <- <-]; exists []; split; reflexivity |].
  assert (page <> []) as Hne by (intros E; rewrite E in Hsize; discriminate).
  destruct (forEachMessage (w_botId w) page st) as [[t1 st1] [[] | e]] eqn:F.
  - destruct (lastId_of_page (lastMessageId st) (channel st) page _ eq_refl Hne) as (m & _ & -> & _ & Hin & Hold).
    destruct (purgeLoop fuel w _) as [[[t2 st3] o2] |] eqn:R; [| discriminate].
    intros [= <- <- <-].
    destruct (IH _ _ _ _ R) as (cs & Hcs & Hdesc). simpl in Hcs.
    exists (Some (m_id m) :: cs). split.
    + simpl. unfold cursors in *. rewrite flat_map_app. simpl.
      fold (cursors t1). rewrite (quiet_cursors t1), Hcs; [reflexivity |].
      eapply forEachMessage_quiet; eassumption.
    + change (older (lastMessageId st) (Some (m_id m))
              && descending (Some (m_id m) :: cs) = true).
      change (descending (Some (m_id m) :: cs) = true) in Hdesc.
      rewrite Hdesc, andb_true_r.
      destruct (lastMessageId st); [exact Hold | reflexivity].
  - intros [= <- <- <-]. exists []. split; [| reflexivity].
    simpl. fold (cursors t1). rewrite (quiet_cursors t1); [reflexivity |].
    eapply forEachMessage_quiet; eassumption.
Qed.

(** *** Paging is transparent on a well-ordered conversation *)

Lemma forEachMessage_withCursor botId (c : option Snowflake) (messages : list Message) :
  forall st t st' o,
    forEachMessage botId messages st = (t, st', o) ->
    forEachMessage botId messages (withCursor c st) = (t, withCursor c st', o).
Proof.
  induction messages as [| m rest IH]; intros st t st' o; simpl.
  - intros [= <- <- <-]. reflexivity.
  - destruct (m_author m =? botId)%N; [| apply IH].
    unfold deleteMessage. destruct (m_delete m) as [| e]; simpl.
    + destruct (forEachMessage botId rest _) as [[t2 st2] o2] eqn:F.
      intros [= <- <- <-]. apply (IH _ _ _ _) in F. unfold withCursor in *.
      simpl in *. rewrite F. reflexivity.
    + destruct (isRateLimitSignal e); simpl.
      * intros [= <- <- <-]. reflexivity.
      * destruct (forEachMessage botId rest st) as [[t2 st2] o2] eqn:F.
        intros [= <- <- <-]. rewrite (IH _ _ _ _ F). reflexivity.
Qed.

Lemma forEachMessage_app botId (p r : list Message) :
  forall st,
    forEachMessage botId (p ++ r) st
    = match forEachMessage botId p st with
      | (t1, st1, Thrown e) => (t1, st1, Thrown e)
      | (t1, st1, Returned _) =>
          let '(t2, st2, o) := forEachMessage botId r st1 in (t1 ++ t2, st2, o)
      end.
Proof.
  induction p as [| m p IH]; intros st; simpl.
  - destruct (forEachMessage botId r st) as [[t2 st2] o]. reflexivity.
  - destruct (m_author m =? botId)%N; [| apply IH].
    destruct (deleteMessage m st) as [[t1 st1] [[] | e]]; [| reflexivity].
    rewrite IH.
    destruct (forEachMessage botId p st1) as [[t2 st2] [[] | e2]]; [| reflexivity].
    destruct (forEachMessage botId r st2) as [[t3 st3] o3].
    rewrite app_assoc. reflexivity.
Qed.

(** A page only ever aborts on a delete call, with the rate-limit error. *)
Lemma forEachMessage_thrown botId (messages : list Message) :
  forall st t st' e,
    forEachMessage botId messages st = (t, st', Thrown e) ->
    e = Error (lit "Rate limit exceeded")
    /\ exists t0 id, t = t0 ++ [MessageDelete id].
Proof.
  induction messages as [| m rest IH]; intros st t st' e; simpl; [discriminate |].
  destruct (m_author m =? botId)%N; [| apply IH].
  unfold deleteMessage. destruct (m_delete m) as [| err].
  - destruct (forEachMessage botId rest _) as [[t2 st2] o2] eqn:F.
    intros [= <- <- ->]. destruct (IH _ _ _ _ F) as (-> & t0 & id & ->).
    split; [reflexivity |]. eexists (_ :: _ :: _ :: t0), id. reflexivity.
  - destruct (isRateLimitSignal err).
    + intros [= <- <- <-]. split; [reflexivity |]. exists [], (m_id m). reflexivity.
    + destruct (forEachMessage botId rest st) as [[t2 st2] o2] eqn:F.
      intros [= <- <- ->]. destruct (IH _ _ _ _ F) as (-> & t0 & id & ->).
      split; [reflexivity |]. eexists (_ :: _ :: t0), id. reflexivity.
Qed.

Lemma page_bounds (rest : list Message) (n : nat) (m : Message) :
  newestFirst rest ->
  last (firstn n rest) = Some m ->
  (forall x, In x (firstn n rest) -> (m_id m <= m_id x)%N)
  /\ (forall x, In x (skipn n rest) -> (m_id x < m_id m)%N)
  /\ newestFirst (skipn n rest).
Proof.
  unfold newestFirst. intros Hsorted Hlast.
  rewrite <- (firstn_skipn n rest) in Hsorted.
  apply StronglySorted_app in Hsorted as (Hcross & Hpage & Hrest).
  apply last_Some in Hlast as [l' Hl']. rewrite Hl' in *.
  apply StronglySorted_app in Hpage as (Hlast & _ & _).
  repeat split.
  - intros x [Hx | [<- | []]]%in_app_or; [| lia].
    apply N.lt_le_incl, (Hlast x m); [apply list_elem_of_In; exact Hx |].
    apply list_elem_of_In. left. reflexivity.
  - intros x Hx. apply (Hcross m x).
    + apply list_elem_of_In, in_or_app. right. left. reflexivity.
    + apply list_elem_of_In. exact Hx.
  - exact Hrest.
Qed.

(** After a page has been processed, the request with the new cursor sees
    exactly the messages that followed the page. *)
Lemma visible_after_page botId (st st1 : Machine) (n : nat) (m : Message) t1 o :
  newestFirst (visible (lastMessageId st) (channel st)) ->
  last (firstn n (visible (lastMessageId st) (channel st))) = Some m ->
  forEachMessage botId (firstn n (visible (lastMessageId st) (channel st))) st
  = (t1, st1, o) ->
  visible (Some (m_id m)) (channel st1)
  = skipn n (visible (lastMessageId st) (channel st)).
Proof.
  intros Hsorted Hlast F.
  destruct (page_bounds _ _ _ Hsorted Hlast) as (Hpage & Hrest & _).
  assert (In m (visible (lastMessageId st) (channel st))) as Hm.
  { apply last_Some in Hlast as [l' Hl']. apply (firstn_In n).
    rewrite Hl'. apply in_or_app. right. left. reflexivity. }
  assert (forall m0 x,
            In m0 (firstn n (visible (lastMessageId st) (channel st))) ->
            m_id x = m_id m0 -> olderThan (Some (m_id m)) x = false) as Hskip.
  { intros m0 x Hm0 Hx. simpl. apply N.ltb_ge. rewrite Hx. apply Hpage, Hm0. }
  unfold visible at 1.
  rewrite (forEachMessage_preserves _ _ _ _ _ _ _ Hskip F).
  transitivity (List.filter (olderThan (Some (m_id m)))
                  (visible (lastMessageId st) (channel st))).
  - symmetry. apply filter_absorb. intros x _ Hx.
    apply filter_In in Hm as [_ Hm].
    destruct (lastMessageId st) as [b |]; [| reflexivity]. simpl in *.
    apply N.ltb_lt in Hx, Hm. apply N.ltb_lt. lia.
  - rewrite <- (firstn_skipn n (visible (lastMessageId st) (channel st))) at 1.
    rewrite List.filter_app, filter_none, filter_all; [reflexivity | |].
    + intros x Hx. apply N.ltb_lt, Hrest, Hx.
    + intros x Hx. apply N.ltb_ge, Hpage, Hx.
Qed.

Lemma ceilDiv_page (n : nat) :
  0 < n -> ceilDiv n RATE_LIMIT.BATCH_SIZE
           = S (ceilDiv (n - RATE_LIMIT.BATCH_SIZE) RATE_LIMIT.BATCH_SIZE).
Proof.
  unfold ceilDiv, RATE_LIMIT.BATCH_SIZE. intros Hn.
  destruct (le_lt_dec n 50) as [Hle | Hgt].
  - replace (n - 50) with 0 by lia.
    change ((0 + 50 - 1) / 50) with 0.
    symmetry. apply Nat.div_unique with (r := n - 1); lia.
  - replace (n + 50 - 1) with ((n - 50 + 50 - 1) + 1 * 50) by lia.
    rewrite Nat.div_add by lia. lia.
Qed.

Lemma effects_app (a b : list Event) : effects (a ++ b) = effects a ++ effects b.
Proof. apply List.filter_app. Qed.

(** On a well-ordered conversation whose page requests are all answered,
    the loop does to the visible messages, page by page, exactly what one
    pass of the [for] body over all of them would do. *)
Lemma purgeLoop_pages (w : World) (fuel : nat) :
  (forall c, w_fetchFault w c = None) ->
  forall st t st' o,
    newestFirst (visible (lastMessageId st) (channel st)) ->
    length (visible (lastMessageId st) (channel st)) < fuel ->
    forEachMessage (w_botId w) (visible (lastMessageId st) (channel st)) st
    = (t, st', o) ->
    exists tl stl,
      purgeLoop fuel w st
      = Some (tl, stl,
              match o with
              | Returned _ => Returned (messagesDeleted st')
              | Thrown e => Thrown e
              end)
      /\ effects tl = t
      /\ channel stl = channel st'
      /\ messagesDeleted stl = messagesDeleted st'
      /\ match o with
         | Returned _ =>
             count isFetch tl
             = S (ceilDiv (length (visible (lastMessageId st) (channel st)))
                    RATE_LIMIT.BATCH_SIZE)
         | Thrown _ => exists pre id, tl = pre ++ [MessageDelete id]
         end.
Proof.
  intros Hfault.
  induction fuel as [| fuel IH]; intros st t st' o Hsorted Hlen F; [lia |].
  simpl. unfold fetchMessages. rewrite Hfault.
  set (V := visible (lastMessageId st) (channel st)) in *.
  destruct (length (firstn RATE_LIMIT.BATCH_SIZE V) =? 0) eqn:Hsize.
  - assert (V = []) as HV by (destruct V; [reflexivity | discriminate Hsize]).
    rewrite HV in *. simpl in F. injection F as <- <- <-.
    eexists _, _. repeat split.
  - assert (firstn RATE_LIMIT.BATCH_SIZE V <> []) as Hne
      by (intros E; rewrite E in Hsize; discriminate).
    assert (0 < length V) as Hpos
      by (destruct V; [contradiction Hne; reflexivity | simpl; lia]).
    rewrite <- (firstn_skipn RATE_LIMIT.BATCH_SIZE V) in F.
    rewrite forEachMessage_app in F.
    destruct (forEachMessage (w_botId w) (firstn RATE_LIMIT.BATCH_SIZE V) st)
      as [[t1 st1] [[] | e]] eqn:F1.
    + destruct (lastId_of_page (lastMessageId st) (channel st)
                  (firstn RATE_LIMIT.BATCH_SIZE V) _ eq_refl Hne)
        as (m & Hlast & -> & _ & _ & _).
      pose proof (visible_after_page _ _ _ _ _ _ _ Hsorted Hlast F1) as Hvis.
      destruct (page_bounds _ _ _ Hsorted Hlast) as (_ & _ & Hsorted').
      fold V in Hvis, Hsorted'.
      destruct (forEachMessage (w_botId w) (skipn RATE_LIMIT.BATCH_SIZE V) st1)
        as [[t2 st2] o2] eqn:F2.
      injection F as <- <- <-.
      apply (forEachMessage_withCursor _ (Some (m_id m))) in F2.
      rewrite <- Hvis in F2, Hsorted'.
      assert (length (visible (Some (m_id m)) (channel st1)) < fuel) as Hlen'
        by (rewrite Hvis, length_skipn; unfold RATE_LIMIT.BATCH_SIZE; lia).
      destruct (IH (withCursor (Some (m_id m)) st1) _ _ _ Hsorted' Hlen' F2)
        as (tl2 & stl2 & Hrun & Heff & Hchan & Hcount & Hshape).
      unfold withCursor in Hrun at 1. rewrite Hrun.
      eexists _, _. split; [reflexivity |].
      split; [| split; [exact Hchan | split; [exact Hcount |]]].
      * change (effects ((MessagesFetch (lastMessageId st) RATE_LIMIT.BATCH_SIZE :: t1)
                           ++ MessagesLast (length (firstn RATE_LIMIT.BATCH_SIZE V)) :: tl2)
                = t1 ++ t2).
        rewrite effects_app. simpl. fold (effects t1). fold (effects tl2).
        rewrite Heff, quiet_effects; [reflexivity |].
        eapply forEachMessage_quiet; eassumption.
      * destruct o2 as [[] | e2].
        -- change (count isFetch
                     ((MessagesFetch (lastMessageId st) RATE_LIMIT.BATCH_SIZE :: t1)
                        ++ MessagesLast (length (firstn RATE_LIMIT.BATCH_SIZE V)) :: tl2)
                   = S (ceilDiv (length V) RATE_LIMIT.BATCH_SIZE)).
           rewrite count_app.
           change (count isFetch (MessagesFetch (lastMessageId st) RATE_LIMIT.BATCH_SIZE :: t1))
             with (S (count isFetch t1)).
           change (count isFetch (MessagesLast (length (firstn RATE_LIMIT.BATCH_SIZE V)) :: tl2))
             with (count isFetch tl2).
           rewrite quiet_count_fetch by (eapply forEachMessage_quiet; eassumption).
           simpl in Hshape. rewrite Hshape, Hvis, length_skipn.
           rewrite (ceilDiv_page (length V) Hpos). reflexivity.
        -- destruct Hshape as (pre & id & ->).
           exists (MessagesFetch (lastMessageId st) RATE_LIMIT.BATCH_SIZE :: t1
                     ++ MessagesLast (length (firstn RATE_LIMIT.BATCH_SIZE V)) :: pre), id.
           simpl. rewrite <- app_assoc. reflexivity.
    + injection F as <- <- <-.
      destruct (forEachMessage_thrown _ _ _ _ _ _ F1) as (_ & t0 & id & Ht1).
      eexists _, _. split; [reflexivity |].
      split; [| split; [reflexivity | split; [reflexivity |]]].
      * simpl. fold (effects t1). apply quiet_effects.
        eapply forEachMessage_quiet; eassumption.
      * exists (MessagesFetch (lastMessageId st) RATE_LIMIT.BATCH_SIZE :: t0), id.
        rewrite Ht1. reflexivity.
Qed.

Lemma visible_all (chan : list Message) : visible None chan = chan.
Proof. apply filter_all. reflexivity. Qed.

Lemma purgeLoop_initial (w : World) (fuel : nat) t st' o :
  (forall c, w_fetchFault w c = None) ->
  newestFirst (w_channel w) ->
  length (w_channel w) < fuel ->
  forEachMessage (w_botId w) (w_channel w) (initial w) = (t, st', o) ->
  exists tl stl,
    purgeLoop fuel w (initial w)
    = Some (tl, stl,
            match o with
            | Returned _ => Returned (messagesDeleted st')
            | Thrown e => Thrown e
            end)
    /\ effects tl = t
    /\ channel stl = channel st'
    /\ messagesDeleted stl = messagesDeleted st'
    /\ match o with
       | Returned _ =>
           count isFetch tl = S (ceilDiv (length (w_channel w)) RATE_LIMIT.BATCH_SIZE)
       | Thrown _ => exists pre id, tl = pre ++ [MessageDelete id]
       end.
Proof.
  intros Hfault Hsorted Hlen F.
  pose proof (purgeLoop_pages w fuel Hfault (initial w) t st' o) as H.
  simpl in H. rewrite visible_all in H. exact (H Hsorted Hlen F).
Qed.

(** *** One pass over a whole conversation *)

(** Without a rate-limit signal every bot message is attempted, in order;
    successes are counted, failures are logged and skipped. *)
Lemma forEachMessage_completes botId (messages : list Message) :
  forall st,
    (forall m, In m messages -> isBot botId m = true -> rateLimited m = false) ->
    exists st',
      forEachMessage botId messages st
      = (flat_map messageEvents (List.filter (isBot botId) messages), st', Returned tt)
      /\ messagesDeleted st'
         = messagesDeleted st
           + length (List.filter succeeds (List.filter (isBot botId) messages)).
Proof.
  induction messages as [| m rest IH]; intros st Hok; simpl.
  - eexists. split; [reflexivity | simpl; lia].
  - assert (forall x, In x rest -> isBot botId x = true -> rateLimited x = false)
      as Hrest by (intros; apply Hok; [right |]; assumption).
    change (m_author m =? botId)%N with (isBot botId m).
    destruct (isBot botId m) eqn:B; [| apply IH, Hrest].
    pose proof (Hok m (or_introl eq_refl) B) as Hm.
    unfold rateLimited in Hm. unfold deleteMessage. simpl.
    unfold messageEvents at 1, succeeds at 1.
    destruct (m_delete m) as [| e]; simpl.
    + destruct (IH {| channel := removeMessage (m_id m) (channel st);
                      messagesDeleted := S (messagesDeleted st);
                      lastMessageId := lastMessageId st |} Hrest)
        as (st' & -> & Hcount).
      exists st'. split; [reflexivity | simpl in Hcount; lia].
    + rewrite Hm. destruct (IH st Hrest) as (st' & -> & Hcount).
      exists st'. split; [reflexivity | exact Hcount].
Qed.

(** The first rate-limit signal stops the pass on the spot. *)
Lemma forEachMessage_aborts botId (pre post : list Message) (m : Message) :
  forall st,
    (forall x, In x pre -> isBot botId x = true -> rateLimited x = false) ->
    isBot botId m = true ->
    rateLimited m = true ->
    exists st',
      forEachMessage botId (pre ++ m :: post) st
      = (flat_map messageEvents (List.filter (isBot botId) pre) ++ [MessageDelete (m_id m)],
         st', Thrown (Error (lit "Rate limit exceeded")))
      /\ messagesDeleted st'
         = messagesDeleted st
           + length (List.filter succeeds (List.filter (isBot botId) pre)).
Proof.
  intros st Hpre Hbot Hrl.
  destruct (forEachMessage_completes botId pre st Hpre) as (st1 & F1 & Hcount).
  rewrite forEachMessage_app, F1. simpl.
  unfold isBot in Hbot. rewrite Hbot.
  unfold deleteMessage. unfold rateLimited in Hrl.
  destruct (m_delete m) as [| e]; [discriminate |]. rewrite Hrl.
  exists st1. split; [reflexivity | exact Hcount].
Qed.

Lemma filter_filter {A} (p q : A -> bool) (l : list A) :
  List.filter p (List.filter q l) = List.filter (fun x => q x && p x) l.
Proof.
  induction l as [| a l IH]; simpl; [reflexivity |].
  destruct (q a); simpl; [destruct (p a) |]; rewrite IH; reflexivity.
Qed.

(** What is left of the conversation after a pass without rate-limit
    signal: the messages whose identifier was not deleted. *)
Lemma forEachMessage_removes botId (messages : list Message) :
  forall st t st' o,
    (forall m, In m messages -> isBot botId m = true -> rateLimited m = false) ->
    forEachMessage botId messages st = (t, st', o) ->
    channel st'
    = List.filter
        (fun x => negb (existsb (sameId x)
                          (List.filter succeeds (List.filter (isBot botId) messages))))
        (channel st).
Proof.
  induction messages as [| m rest IH]; intros st t st' o Hok; simpl.
  - intros [= <- <- <-]. symmetry. apply filter_all. reflexivity.
  - assert (forall x, In x rest -> isBot botId x = true -> rateLimited x = false)
      as Hrest by (intros; apply Hok; [right |]; assumption).
    change (m_author m =? botId)%N with (isBot botId m).
    destruct (isBot botId m) eqn:B; [| apply IH, Hrest].
    pose proof (Hok m (or_introl eq_refl) B) as Hm.
    unfold rateLimited in Hm. unfold deleteMessage. simpl. unfold succeeds at 1.
    destruct (m_delete m) as [| e]; simpl.
    + destruct (forEachMessage botId rest _) as [[t2 st2] o2] eqn:F.
      intros [= <- <- <-]. rewrite (IH _ _ _ _ Hrest F). simpl.
      unfold removeMessage. rewrite filter_filter.
      apply List.filter_ext. intros x. unfold sameId at 2.
      rewrite negb_orb. reflexivity.
    + rewrite Hm.
      destruct (forEachMessage botId rest st) as [[t2 st2] o2] eqn:F.
      intros [= <- <- <-]. exact (IH _ _ _ _ Hrest F).
Qed.

Lemma NoDup_map_inj {A B} (f : A -> B) (l : list A) (x y : A) :
  List.NoDup (List.map f l) -> In x l -> In y l -> f x = f y -> x = y.
Proof.
  induction l as [| a l IH]; simpl; intros Hnd Hx Hy E; [contradiction |].
  apply List.NoDup_cons_iff in Hnd as [Hna Hnd].
  destruct Hx as [<- | Hx], Hy as [<- | Hy]; try reflexivity.
  - exfalso. apply Hna. rewrite E. apply in_map, Hy.
  - exfalso. apply Hna. rewrite <- E. apply in_map, Hx.
  - apply IH; assumption.
Qed.

(** *** Reading traces *)

Lemma deletedIds_effects (t : list Event) : deletedIds (effects t) = deletedIds t.
Proof.
  induction t as [| e t IH]; [reflexivity |].
  destruct e; simpl; rewrite ?IH; try reflexivity; apply IH.
Qed.

Lemma pace_effects (t : list Event) : pace (effects t) = pace t.
Proof.
  induction t as [| e t IH]; [reflexivity |].
  destruct e; simpl; rewrite ?IH; try reflexivity; apply IH.
Qed.

Lemma count_effects (p : Event -> bool) (t : list Event) :
  (forall e, p e = true -> isFetch e = false /\ isLast e = false) ->
  count p (effects t) = count p t.
Proof.
  intros Hp. unfold count, effects. f_equal.
  rewrite filter_absorb; [reflexivity |].
  intros e _ He. destruct (Hp e He) as [-> ->]. reflexivity.
Qed.

Lemma deletedIds_messageEvents (l : list Message) :
  deletedIds (flat_map messageEvents l) = List.map m_id l.
Proof.
  induction l as [| m l IH]; [reflexivity |].
  simpl. unfold deletedIds in *. rewrite flat_map_app, IH.
  unfold messageEvents. destruct (m_delete m); reflexivity.
Qed.

Lemma pace_messageEvents (l : list Message) :
  (forall m, In m l -> m_delete m = DeleteOk) ->
  pace (flat_map messageEvents l)
  = flat_map (fun m => [MessageDelete (m_id m); Delay RATE_LIMIT.DELAY_MS]) l.
Proof.
  induction l as [| m l IH]; intros Hok; [reflexivity |].
  simpl. unfold pace in *. rewrite List.filter_app, IH by (intros; apply Hok; right; assumption).
  unfold messageEvents. rewrite (Hok m) by (left; reflexivity). reflexivity.
Qed.

Lemma logged_effects (t : list Event) : logged (effects t) = logged t.
Proof.
  induction t as [| e t IH]; [reflexivity |].
  destruct e; simpl; rewrite ?IH; try reflexivity; apply IH.
Qed.

Lemma logged_messageEvents (l : list Message) :
  (forall m, In m l -> m_delete m = DeleteOk) ->
  logged (flat_map messageEvents l)
  = List.map (fun m => [lit "Deleted message ID: " ++ showN (m_id m)]) l.
Proof.
  induction l as [| m l IH]; intros Hok; [reflexivity |].
  simpl. unfold logged in *. rewrite flat_map_app, IH by (intros; apply Hok; right; assumption).
  unfold messageEvents. rewrite (Hok m) by (left; reflexivity). reflexivity.
Qed.

Lemma newestFirst_NoDup (chan : list Message) :
  newestFirst chan -> List.NoDup (List.map m_id chan).
Proof.
  induction 1 as [| m chan _ IH Hall]; simpl; constructor; [| exact IH].
  intros Hin. apply in_map_iff in Hin as (x & Hid & Hx).
  rewrite List.Forall_forall in Hall. specialize (Hall x Hx). simpl in Hall. lia.
Qed.

Lemma newestFirst_filter (p : Message -> bool) (chan : list Message) :
  newestFirst chan -> newestFirst (List.filter p chan).
Proof.
  induction 1 as [| m chan _ IH Hall]; simpl; [constructor |].
  destruct (p m); [| exact IH]. constructor; [exact IH |].
  rewrite List.Forall_forall in *. intros x Hx. apply Hall.
  apply filter_In in Hx. apply Hx.
Qed.

(** Identifiers are unique, so deleting by identifier removes exactly the
    bot messages whose deletion succeeded. *)
Lemma channel_after_pass botId (chan : list Message) :
  newestFirst chan ->
  List.filter
    (fun x => negb (existsb (sameId x)
                      (List.filter succeeds (List.filter (isBot botId) chan))))
    chan
  = List.filter (fun x => negb (isBot botId x && succeeds x)) chan.
Proof.
  intros Hsorted. apply List.filter_ext_in. intros x Hx. f_equal.
  destruct (isBot botId x && succeeds x) eqn:E.
  - apply andb_prop in E as [Hb Hs]. apply existsb_exists. exists x. split.
    + apply filter_In. split; [apply filter_In; split |]; assumption.
    + apply N.eqb_refl.
  - destruct (existsb _ _) eqn:X; [| reflexivity].
    apply existsb_exists in X as (m & Hm & Hid).
    apply filter_In in Hm as [Hm Hs]. apply filter_In in Hm as [Hm Hb].
    apply N.eqb_eq in Hid.
    rewrite (NoDup_map_inj m_id chan x m (newestFirst_NoDup _ Hsorted) Hx Hm Hid) in E.
    rewrite Hb, Hs in E. discriminate.
Qed.

(** *** Whole runs of [deleteBotMessagesFromDM] *)

Lemma purge_completes (w : World) (fuel : nat) (userId : option jsstring) :
  reachable w ->
  newestFirst (w_channel w) ->
  length (w_channel w) < fuel ->
  (forall m, In m (w_channel w) -> isBot (w_botId w) m = true -> rateLimited m = false) ->
  exists t st,
    deleteBotMessagesFromDM fuel w userId
    = Some (t, st,
            Returned (length (List.filter succeeds
                                (List.filter (isBot (w_botId w)) (w_channel w)))))
    /\ effects t
       = UsersFetch userId :: UserCreateDM
         :: flat_map messageEvents (List.filter (isBot (w_botId w)) (w_channel w))
    /\ count isFetch t = S (ceilDiv (length (w_channel w)) RATE_LIMIT.BATCH_SIZE)
    /\ channel st
       = List.filter (fun x => negb (isBot (w_botId w) x && succeeds x)) (w_channel w).
Proof.
  intros (Huser & Hdm & Hfault) Hsorted Hlen Hok.
  destruct (forEachMessage_completes (w_botId w) (w_channel w) (initial w) Hok)
    as (st' & F & Hcount).
  destruct (purgeLoop_initial w fuel _ _ _ Hfault Hsorted Hlen F)
    as (tl & stl & Hrun & Heff & Hchan & _ & Hfetch).
  unfold deleteBotMessagesFromDM, deleteBotMessagesFromDM_try.
  rewrite Huser, Hdm, Hrun. simpl in Hcount. rewrite Hcount.
  eexists _, _. split; [reflexivity |]. split; [| split].
  - simpl. fold (effects tl). rewrite Heff. reflexivity.
  - exact Hfetch.
  - rewrite Hchan, (forEachMessage_removes _ _ _ _ _ _ Hok F). simpl.
    apply channel_after_pass, Hsorted.
Qed.

Lemma purge_aborts (w : World) (fuel : nat) (userId : option jsstring)
    (pre post : list Message) (m : Message) :
  reachable w ->
  newestFirst (w_channel w) ->
  length (w_channel w) < fuel ->
  w_channel w = pre ++ m :: post ->
  (forall x, In x pre -> isBot (w_botId w) x = true -> rateLimited x = false) ->
  isBot (w_botId w) m = true ->
  rateLimited m = true ->
  exists t st,
    deleteBotMessagesFromDM fuel w userId
    = Some (t ++ [MessageDelete (m_id m)], st,
            Thrown (Error (lit "Failed to delete messages: Rate limit exceeded")))
    /\ effects t
       = UsersFetch userId :: UserCreateDM
         :: flat_map messageEvents (List.filter (isBot (w_botId w)) pre)
    /\ messagesDeleted st
       = length (List.filter succeeds (List.filter (isBot (w_botId w)) pre)).
Proof.
  intros (Huser & Hdm & Hfault) Hsorted Hlen Hsplit Hpre Hbot Hrl.
  destruct (forEachMessage_aborts (w_botId w) pre post m (initial w) Hpre Hbot Hrl)
    as (st' & F & Hcount).
  rewrite <- Hsplit in F.
  destruct (purgeLoop_initial w fuel _ _ _ Hfault Hsorted Hlen F)
    as (tl & stl & Hrun & Heff & _ & Hdel & (t0 & id & ->)).
  rewrite effects_app in Heff. apply app_inj_tail in Heff as [Heff [= ->]].
  unfold deleteBotMessagesFromDM, deleteBotMessagesFromDM_try.
  rewrite Huser, Hdm, Hrun.
  exists (UsersFetch userId :: UserCreateDM :: t0), stl.
  split; [reflexivity |]. split.
  - simpl. fold (effects t0). rewrite Heff. reflexivity.
  - rewrite Hdel, Hcount. reflexivity.
Qed.

Lemma succeeds_all (l : list Message) :
  (forall m, In m l -> m_delete m = DeleteOk) -> List.filter succeeds l = l.
Proof.
  intros H. apply filter_all. intros m Hm. unfold succeeds. rewrite (H m Hm). reflexivity.
Qed.

Lemma purgeLoop_pageSizes (w : World) (fuel : nat) :
  forall st t st' o,
    purgeLoop fuel w st = Some (t, st', o) ->
    Forall (fun n => 0 < n <= RATE_LIMIT.BATCH_SIZE) (pageSizes t).
Proof.
  induction fuel as [| fuel IH]; intros st t st' o; simpl; [discriminate |].
  unfold fetchMessages.
  destruct (w_fetchFault w (lastMessageId st));
    [intros [= <- <- <-]; constructor |].
  set (page := firstn RATE_LIMIT.BATCH_SIZE (visible (lastMessageId st) (channel st))).
  destruct (length page =? 0) eqn:Hsize; [intros [= <- <- <-]; constructor |].
  apply Nat.eqb_neq in Hsize.
  assert (length page <= RATE_LIMIT.BATCH_SIZE) as Hle
    by (unfold page; rewrite length_firstn; apply Nat.le_min_l).
  destruct (forEachMessage (w_botId w) page st) as [[t1 st1] [[] | e]] eqn:F.
  - pose proof (quiet_pageSizes t1 (forEachMessage_quiet _ _ _ _ _ _ F)) as Hq.
    destruct (lastId page).
    + destruct (purgeLoop fuel w _) as [[[t2 st3] o2] |] eqn:R; [| discriminate].
      intros [= <- <- <-]. simpl. unfold pageSizes in *.
      rewrite flat_map_app, Hq. simpl. constructor; [lia |].
      eapply IH; eassumption.
    + intros [= <- <- <-]. simpl. unfold pageSizes in *.
      rewrite flat_map_app, Hq. simpl. constructor; [lia | constructor].
  - intros [= <- <- <-]. simpl.
    fold (pageSizes t1).
    rewrite (quiet_pageSizes t1 (forEachMessage_quiet _ _ _ _ _ _ F)). constructor.
Qed.

(** *** Properties of the purge run *)

Example purge_three_pages :
  let w := Samples.purger_world LoginReady Samples.chan_long in
  exists t st,
    deleteBotMessagesFromDM 121 w None = Some (t, st, Returned 120)
    /\ count isFetch t = 4
    /\ cursors t = [None; Some 71%N; Some 21%N; Some 1%N]
    /\ pageSizes t = [50; 50; 20]
    /\ channel st = [].
Proof.
  vm_compute. eexists _, _. repeat split.
Qed.

(** C2 (amended). On a well-ordered conversation of M messages, N of them
    written by the bot, where the platform answers every request and every
    deletion succeeds, the purge issues [ceil(M/50) + 1] page requests (the
    last one is answered by the empty page), deletes every bot message
    exactly once in conversation order, pauses 1000 ms after each deletion,
    the last one included, returns N, and leaves in the conversation exactly
    the messages the bot did not write. *)
Theorem purge_deletes_each_bot_message_once
    (w : World) (fuel : nat) (userId : option jsstring) :
  reachable w ->
  newestFirst (w_channel w) ->
  length (w_channel w) < fuel ->
  Forall (fun m => m_delete m = DeleteOk)
    (List.filter (isBot (w_botId w)) (w_channel w)) ->
  exists t st,
    deleteBotMessagesFromDM fuel w userId
    = Some (t, st, Returned (length (List.filter (isBot (w_botId w)) (w_channel w))))
    /\ count isFetch t = S (ceilDiv (length (w_channel w)) RATE_LIMIT.BATCH_SIZE)
    /\ deletedIds t = List.map m_id (List.filter (isBot (w_botId w)) (w_channel w))
    /\ List.NoDup (deletedIds t)
    /\ pace t
       = flat_map (fun m => [MessageDelete (m_id m); Delay RATE_LIMIT.DELAY_MS])
           (List.filter (isBot (w_botId w)) (w_channel w))
    /\ channel st = List.filter (fun x => negb (isBot (w_botId w) x)) (w_channel w).
Proof.
  intros Hreach Hsorted Hlen Hok. rewrite List.Forall_forall in Hok.
  destruct (purge_completes w fuel userId Hreach Hsorted Hlen)
    as (t & st & Hrun & Heff & Hfetch & Hchan).
  { intros m Hm Hbot. unfold rateLimited.
    rewrite (Hok m); [reflexivity |]. apply filter_In. split; assumption. }
  rewrite (succeeds_all _ Hok) in Hrun.
  assert (deletedIds t
          = List.map m_id (List.filter (isBot (w_botId w)) (w_channel w))) as Hids.
  { rewrite <- deletedIds_effects, Heff. apply deletedIds_messageEvents. }
  exists t, st. repeat split; try assumption.
  - rewrite Hids. apply newestFirst_NoDup, newestFirst_filter, Hsorted.
  - rewrite <- pace_effects, Heff. apply (pace_messageEvents _ Hok).
  - rewrite Hchan. apply List.filter_ext_in. intros x Hx.
    destruct (isBot (w_botId w) x) eqn:B; [| reflexivity].
    unfold succeeds. rewrite (Hok x); [reflexivity |].
    apply filter_In. split; assumption.
Qed.

Lemma purge_deletes_each_bot_message_once_witness :
  exists t st,
    deleteBotMessagesFromDM 4 (Samples.purger_world LoginReady Samples.chan_clean) None
    = Some (t, st, Returned 2)
    /\ count isFetch t = 2
    /\ deletedIds t = [9%N; 7%N].
Proof.
  destruct (purge_deletes_each_bot_message_once
              (Samples.purger_world LoginReady Samples.chan_clean) 4 None)
    as (t & st & Hrun & Hfetch & Hids & _).
  - repeat split.
  - repeat constructor.
  - simpl. lia.
  - repeat constructor.
  - exists t, st. repeat split; assumption.
Defined.

(** C2 fails as stated: one bot message (N = 1, [ceil(N/50) = 1]) costs two
    page requests, and a pause follows its deletion although no other
    deletion comes after it. *)
Lemma purge_single_message_counterexample :
  exists t st,
    deleteBotMessagesFromDM 2
      (Samples.purger_world LoginReady [Samples.by_bot 5 DeleteOk]) None
    = Some (t, st, Returned 1)
    /\ count isFetch t = 2
    /\ count isFetch t <> ceilDiv 1 RATE_LIMIT.BATCH_SIZE
    /\ pace t = [MessageDelete 5%N; Delay RATE_LIMIT.DELAY_MS].
Proof.
  eexists _, _. split; [reflexivity |]. repeat split. discriminate.
Qed.

(** C4 (amended). On a well-ordered conversation of M messages none of
    which was written by the bot, the purge deletes nothing, returns 0 and
    issues [ceil(M/50) + 1] page requests: exactly one when the conversation
    is empty, and only then. *)
Theorem purge_without_bot_messages
    (w : World) (fuel : nat) (userId : option jsstring) :
  reachable w ->
  newestFirst (w_channel w) ->
  length (w_channel w) < fuel ->
  List.filter (isBot (w_botId w)) (w_channel w) = [] ->
  exists t st,
    deleteBotMessagesFromDM fuel w userId = Some (t, st, Returned 0)
    /\ deletedIds t = []
    /\ channel st = w_channel w
    /\ count isFetch t = S (ceilDiv (length (w_channel w)) RATE_LIMIT.BATCH_SIZE)
    /\ (count isFetch t = 1 <-> w_channel w = []).
Proof.
  intros Hreach Hsorted Hlen Hnone.
  destruct (purge_completes w fuel userId Hreach Hsorted Hlen)
    as (t & st & Hrun & Heff & Hfetch & Hchan).
  { intros m Hm Hbot.
    assert (In m (List.filter (isBot (w_botId w)) (w_channel w))) as Hin
      by (apply filter_In; split; assumption).
    rewrite Hnone in Hin. destruct Hin. }
  rewrite Hnone in Hrun, Heff. exists t, st. repeat split; try assumption.
  - rewrite <- deletedIds_effects, Heff. reflexivity.
  - rewrite Hchan. apply filter_all. intros x Hx.
    destruct (isBot (w_botId w) x) eqn:B; [| reflexivity]. exfalso.
    assert (In x (List.filter (isBot (w_botId w)) (w_channel w))) as Hin
      by (apply filter_In; split; assumption).
    rewrite Hnone in Hin. destruct Hin.
  - intros H. destruct (w_channel w) as [| m chan]; [reflexivity |]. exfalso.
    rewrite Hfetch, (ceilDiv_page (length (m :: chan))) in H by (simpl; lia).
    discriminate.
  - intros E. rewrite Hfetch, E. reflexivity.
Qed.

Lemma purge_without_bot_messages_witness :
  exists t st,
    deleteBotMessagesFromDM 3 (Samples.purger_world LoginReady Samples.chan_users) None
    = Some (t, st, Returned 0)
    /\ count isFetch t = 2.
Proof.
  destruct (purge_without_bot_messages
              (Samples.purger_world LoginReady Samples.chan_users) 3 None)
    as (t & st & Hrun & _ & _ & Hfetch & _).
  - repeat split.
  - repeat constructor.
  - simpl. lia.
  - reflexivity.
  - exists t, st. split; assumption.
Defined.

(** C4 fails as stated: a conversation holding one message of the human
    recipient has no bot message, yet the purge issues two page requests. *)
Lemma purge_user_message_counterexample :
  exists t st,
    deleteBotMessagesFromDM 2
      (Samples.purger_world LoginReady [Samples.by_user 9]) None
    = Some (t, st, Returned 0)
    /\ List.filter (isBot 7%N) [Samples.by_user 9] = []
    /\ count isFetch t = 2
    /\ count isFetch t <> 1.
Proof.
  eexists _, _. split; [reflexivity |]. repeat split. discriminate.
Qed.

(** C5. When no deletion fault carries the rate-limit signal code, every
    fault is logged and skipped: the purge still attempts every bot message
    of every page exactly once, in order, and returns the number of
    deletions that succeeded, so a failed message is not counted and stays in
    the conversation. *)
Theorem purge_continues_after_delete_fault
    (w : World) (fuel : nat) (userId : option jsstring) :
  reachable w ->
  newestFirst (w_channel w) ->
  length (w_channel w) < fuel ->
  Forall (fun m => rateLimited m = false)
    (List.filter (isBot (w_botId w)) (w_channel w)) ->
  exists t st,
    deleteBotMessagesFromDM fuel w userId
    = Some (t, st,
            Returned (length (List.filter succeeds
                                (List.filter (isBot (w_botId w)) (w_channel w)))))
    /\ deletedIds t = List.map m_id (List.filter (isBot (w_botId w)) (w_channel w))
    /\ Forall (faultLogged t) (List.filter (isBot (w_botId w)) (w_channel w))
    /\ effects t
       = UsersFetch userId :: UserCreateDM
         :: flat_map messageEvents (List.filter (isBot (w_botId w)) (w_channel w))
    /\ channel st
       = List.filter (fun x => negb (isBot (w_botId w) x && succeeds x)) (w_channel w).
Proof.
  intros Hreach Hsorted Hlen Hok. rewrite List.Forall_forall in Hok.
  destruct (purge_completes w fuel userId Hreach Hsorted Hlen)
    as (t & st & Hrun & Heff & _ & Hchan).
  { intros m Hm Hbot. apply Hok, filter_In. split; assumption. }
  exists t, st. repeat split; try assumption.
  - rewrite <- deletedIds_effects, Heff. apply deletedIds_messageEvents.
  - apply List.Forall_forall. intros m Hm. unfold faultLogged.
    destruct (m_delete m) as [| error] eqn:D; [exact I |].
    assert (In (deleteFailureLog m error) (effects t)) as Hin.
    { rewrite Heff. right. right. apply in_flat_map. exists m.
      split; [exact Hm |]. unfold messageEvents. rewrite D. right. left. reflexivity. }
    apply filter_In in Hin. apply Hin.
Qed.

Lemma purge_continues_after_delete_fault_witness :
  exists t st,
    deleteBotMessagesFromDM 5 (Samples.purger_world LoginReady Samples.chan_fault) None
    = Some (t, st, Returned 2)
    /\ deletedIds t = [9%N; 8%N; 5%N].
Proof.
  destruct (purge_continues_after_delete_fault
              (Samples.purger_world LoginReady Samples.chan_fault) 5 None)
    as (t & st & Hrun & Hids & _).
  - repeat split.
  - repeat constructor.
  - simpl. lia.
  - repeat constructor.
  - exists t, st. split; assumption.
Defined.

(** C3. When the k-th bot message of a well-ordered conversation answers
    its deletion with the rate-limit signal code and the k-1 bot messages
    before it were deleted, the failing delete call is the last call made to
    the platform: [deleteBotMessagesFromDM] throws the rate-limit error with
    [messagesDeleted] = k-1 and k-1 deletions reported on the console, and
    the program logs the error, destroys the client and exits with code 3. *)
Theorem purge_aborts_on_rate_limit_signal
    (env : Env) (w : World) (fuel : nat) (pre post : list Message) (m : Message) :
  missingVars env = [] ->
  w_login w = LoginReady ->
  reachable w ->
  newestFirst (w_channel w) ->
  length (w_channel w) < fuel ->
  w_channel w = pre ++ m :: post ->
  Forall (fun x => m_delete x = DeleteOk) (List.filter (isBot (w_botId w)) pre) ->
  isBot (w_botId w) m = true ->
  rateLimited m = true ->
  exists t st,
    deleteBotMessagesFromDM fuel w (env !! DM_USER_ID)
    = Some (t ++ [MessageDelete (m_id m)], st,
            Thrown (Error (lit "Failed to delete messages: Rate limit exceeded")))
    /\ deletedIds t = List.map m_id (List.filter (isBot (w_botId w)) pre)
    /\ messagesDeleted st = length (List.filter (isBot (w_botId w)) pre)
    /\ logged t
       = List.map (fun x => [lit "Deleted message ID: " ++ showN (m_id x)])
           (List.filter (isBot (w_botId w)) pre)
    /\ main fuel env w
       = Some (NewClient :: ClientLogin (env !! BOT_TOKEN)
               :: ConsoleLog [lit "Logged in as " ++ w_tag w]
               :: t ++ [MessageDelete (m_id m);
                        ConsoleError
                          [lit "Error:";
                           lit "Failed to delete messages: Rate limit exceeded"];
                        ClientDestroy;
                        ProcessExit EXIT_CODES.RATE_LIMIT]).
Proof.
  intros Henv Hlogin Hreach Hsorted Hlen Hsplit Hpre Hbot Hrl.
  rewrite List.Forall_forall in Hpre.
  destruct (purge_aborts w fuel (env !! DM_USER_ID) pre post m
              Hreach Hsorted Hlen Hsplit) as (t & st & Hrun & Heff & Hcount);
    try assumption.
  { intros x Hx Hb. unfold rateLimited.
    rewrite (Hpre x); [reflexivity |]. apply filter_In. split; assumption. }
  rewrite (succeeds_all _ Hpre) in Hcount.
  exists t, st. repeat split; try assumption.
  - rewrite <- deletedIds_effects, Heff. apply deletedIds_messageEvents.
  - rewrite <- logged_effects, Heff. apply (logged_messageEvents _ Hpre).
  - unfold main, validateEnvironment, onReady.
    rewrite Henv, Hlogin, Hrun. simpl. rewrite <- app_assoc. reflexivity.
Qed.

Lemma purge_aborts_on_rate_limit_signal_witness :
  exists t,
    main 5 Samples.env_ok (Samples.purger_world LoginReady Samples.chan_limited)
    = Some (t ++ [MessageDelete 7%N;
                  ConsoleError
                    [lit "Error:";
                     lit "Failed to delete messages: Rate limit exceeded"];
                  ClientDestroy; ProcessExit 3]).
Proof.
  destruct (purge_aborts_on_rate_limit_signal Samples.env_ok
              (Samples.purger_world LoginReady Samples.chan_limited) 5
              [Samples.by_bot 9 DeleteOk; Samples.by_user 8]
              [Samples.by_bot 6 DeleteOk]
              (Samples.by_bot 7 (DeleteFault Samples.missing_permissions)))
    as (t & st & _ & _ & _ & _ & Hmain).
  - vm_compute. reflexivity.
  - reflexivity.
  - repeat split.
  - repeat constructor.
  - simpl. lia.
  - reflexivity.
  - repeat constructor.
  - reflexivity.
  - reflexivity.
  - eexists (_ :: _ :: _ :: t). exact Hmain.
Defined.

(** C7. On every finite conversation the purge loop returns once it is
    given more fuel than the conversation has messages; each page request
    after the first carries a cursor strictly older than the one before; and
    an empty page ends the loop with the current count. *)
Theorem purge_loop_terminates
    (w : World) (fuel : nat) (userId : option jsstring) :
  length (w_channel w) < fuel ->
  (exists t st o,
      deleteBotMessagesFromDM fuel w userId = Some (t, st, o)
      /\ descending (cursors t) = true)
  /\ (forall st n,
         w_fetchFault w (lastMessageId st) = None ->
         visible (lastMessageId st) (channel st) = [] ->
         purgeLoop (S n) w st
         = Some ([MessagesFetch (lastMessageId st) RATE_LIMIT.BATCH_SIZE], st,
                 Returned (messagesDeleted st))).
Proof.
  intros Hlen. split.
  - unfold deleteBotMessagesFromDM, deleteBotMessagesFromDM_try.
    destruct (w_user w); [| eexists _, _, _; split; reflexivity ..].
    destruct (w_createDM w); [eexists _, _, _; split; reflexivity |].
    destruct (purgeLoop_terminates w fuel (initial w)) as [[[t st] o] Hrun].
    { simpl. rewrite visible_all. exact Hlen. }
    rewrite Hrun.
    destruct (purgeLoop_descends _ _ _ _ _ _ Hrun) as (cs & Hcs & Hdesc).
    exists (UsersFetch userId :: UserCreateDM :: t), st.
    destruct o as [n | e]; eexists; (split; [reflexivity |]);
      simpl; fold (cursors t); rewrite Hcs; exact Hdesc.
  - intros st n Hfault Hempty. simpl. unfold fetchMessages.
    rewrite Hfault, Hempty. reflexivity.
Qed.

Lemma purge_loop_terminates_witness :
  exists t st o,
    deleteBotMessagesFromDM 5 (Samples.purger_world LoginReady Samples.chan_fault) None
    = Some (t, st, o)
    /\ descending (cursors t) = true.
Proof.
  destruct (purge_loop_terminates
              (Samples.purger_world LoginReady Samples.chan_fault) 5 None) as [H _].
  - simpl. lia.
  - exact H.
Defined.

(** C9. In every run, each evaluation of [messages.last()] happens on a
    page of at least one (and at most 50) messages: the loop leaves on an
    empty page before the cursor update is reached. *)
Theorem cursor_advance_reads_nonempty_page
    (w : World) (fuel : nat) (userId : option jsstring) :
  length (w_channel w) < fuel ->
  exists t st o,
    deleteBotMessagesFromDM fuel w userId = Some (t, st, o)
    /\ Forall (fun n => 0 < n <= RATE_LIMIT.BATCH_SIZE) (pageSizes t).
Proof.
  intros Hlen.
  unfold deleteBotMessagesFromDM, deleteBotMessagesFromDM_try.
  destruct (w_user w); [| eexists _, _, _; split; [reflexivity | constructor] ..].
  destruct (w_createDM w); [eexists _, _, _; split; [reflexivity | constructor] |].
  destruct (purgeLoop_terminates w fuel (initial w)) as [[[t st] o] Hrun].
  { simpl. rewrite visible_all. exact Hlen. }
  rewrite Hrun. pose proof (purgeLoop_pageSizes _ _ _ _ _ _ Hrun) as Hsizes.
  exists (UsersFetch userId :: UserCreateDM :: t), st.
  destruct o as [n | e]; eexists; (split; [reflexivity | exact Hsizes]).
Qed.

Lemma cursor_advance_reads_nonempty_page_witness :
  exists t st o,
    deleteBotMessagesFromDM 4 (Samples.purger_world LoginReady Samples.chan_clean) None
    = Some (t, st, o)
    /\ Forall (fun n => 0 < n <= RATE_LIMIT.BATCH_SIZE) (pageSizes t).
Proof.
  apply (cursor_advance_reads_nonempty_page
           (Samples.purger_world LoginReady Samples.chan_clean) 4 None).
  simpl. lia.
Defined.

(** *** Teardown in the purger *)






(** A run that built a client, made [client.destroy] calls and no other
    exit before its last event, the exit. *)
Lemma started_run_teardown (tok : option jsstring) (t0 : list Event) (c : Z) :
  exitCodes t0 = [] ->
  1 <= count isDestroy t0 ->
  count isNewClient t0 = 0 ->
  let t := NewClient :: ClientLogin tok :: t0 ++ [ProcessExit c] in
  destroyedBeforeExit t = true
  /\ count isNewClient t = 1
  /\ count isDestroy t = count isDestroy t0.
Proof.
  intros Hx Hd Hn t. subst t. split; [| split].
  - unfold destroyedBeforeExit. simpl.
    clear Hn. induction t0 as [| e t0 IH]; [rewrite count_nil in Hd; lia |].
    rewrite count_cons in Hd. simpl.
    destruct (isDestroy e) eqn:D; [reflexivity |].
    destruct e; try discriminate; apply IH; solve [exact Hx | simpl in Hd; lia].
  - rewrite !count_cons, count_app, Hn. reflexivity.
  - rewrite !count_cons, count_app. simpl. rewrite count_cons, count_nil. simpl. lia.
Qed.





(** ** Further properties of the sender *)

(** *** Trimming *)

Lemma trimStart_blank (s : jsstring) : blank s = true -> trimStart s = [].
Proof.
  induction s as [| c s IH]; simpl; [reflexivity |].
  intros [Hc Hs]%andb_prop. rewrite Hc. apply IH, Hs.
Qed.

Lemma trimStart_decomp (s : jsstring) :
  exists ws, s = ws ++ trimStart s /\ blank ws = true.
Proof.
  induction s as [| c s (ws & IH & Hws)]; simpl.
  - exists []. split; reflexivity.
  - destruct (isWhiteSpace c) eqn:C.
    + exists (c :: ws). split; [simpl; f_equal; exact IH |].
      simpl. rewrite C. exact Hws.
    + exists []. split; reflexivity.
Qed.

Lemma trimStart_head (s : jsstring) (c : N) (r : jsstring) :
  trimStart s = c :: r -> isWhiteSpace c = false.
Proof.
  induction s as [| a s IH]; simpl; [discriminate |].
  destruct (isWhiteSpace a) eqn:A; [exact IH |].
  intros [= <- <-]. exact A.
Qed.

Lemma trimStart_fixed (c : N) (r : jsstring) :
  isWhiteSpace c = false -> trimStart (c :: r) = c :: r.
Proof. intros H. simpl. rewrite H. reflexivity. Qed.

Lemma blank_rev (s : jsstring) : blank (rev s) = blank s.
Proof.
  unfold blank. induction s as [| c s IH]; [reflexivity |].
  simpl. rewrite forallb_app, IH. simpl. rewrite andb_true_r. apply andb_comm.
Qed.

Lemma trimEnd_decomp (s : jsstring) :
  exists ws, s = trimEnd s ++ ws /\ blank ws = true.
Proof.
  unfold trimEnd. destruct (trimStart_decomp (rev s)) as (ws & E & Hws).
  exists (rev ws). split; [| rewrite blank_rev; exact Hws].
  rewrite <- rev_app_distr, <- E, rev_involutive. reflexivity.
Qed.

Lemma trimEnd_last (s r : jsstring) (d : N) :
  trimEnd s = r ++ [d] -> isWhiteSpace d = false.
Proof.
  unfold trimEnd. intros E.
  apply (f_equal (@rev N)) in E. rewrite rev_involutive, rev_app_distr in E.
  simpl in E. exact (trimStart_head _ _ _ E).
Qed.

Lemma trimEnd_keeps_head (c : N) (r : jsstring) :
  isWhiteSpace c = false -> exists r', trimEnd (c :: r) = c :: r'.
Proof.
  intros Hc. destruct (trimEnd_decomp (c :: r)) as (ws & E & Hws).
  destruct (trimEnd (c :: r)) as [| a r'] eqn:T.
  - simpl in E. subst ws. simpl in Hws. rewrite Hc in Hws. discriminate.
  - injection E as <- _. exists r'. reflexivity.
Qed.

Lemma trim_decomp (s : jsstring) :
  exists pre post,
    s = pre ++ trim s ++ post /\ blank pre = true /\ blank post = true.
Proof.
  unfold trim. destruct (trimStart_decomp s) as (pre & E1 & Hpre).
  destruct (trimEnd_decomp (trimStart s)) as (post & E2 & Hpost).
  exists pre, post. repeat split; try assumption.
  rewrite <- E2. exact E1.
Qed.

Lemma last_snoc_default (r : jsstring) (d c : N) : List.last (r ++ [d]) c = d.
Proof. apply List.last_last. Qed.

Lemma trim_tight (s : jsstring) : tight (trim s) = true.
Proof.
  unfold trim. destruct (trimStart s) as [| c r] eqn:S; [reflexivity |].
  pose proof (trimStart_head _ _ _ S) as Hc.
  destruct (trimEnd_keeps_head c r Hc) as (r' & E). rewrite E.
  unfold tight. cbv beta iota. rewrite Hc.
  destruct (exists_last (l := c :: r')) as (l & d & El); [discriminate |].
  rewrite El, last_snoc_default. rewrite <- E in El.
  rewrite (trimEnd_last _ _ _ El). reflexivity.
Qed.

Lemma trim_nil_iff (s : jsstring) : trim s = [] <-> blank s = true.
Proof.
  split.
  - intros E. destruct (trim_decomp s) as (pre & post & Hs & Hpre & Hpost).
    rewrite E in Hs. rewrite Hs. unfold blank in *.
    rewrite forallb_app, Hpre. exact Hpost.
  - intros H. unfold trim. rewrite (trimStart_blank s H). reflexivity.
Qed.

(** A text that is [tight] is left alone, also with whitespace around it. *)
Lemma trim_padded (pre s post : jsstring) :
  tight s = true -> blank pre = true -> blank post = true ->
  trim (pre ++ s ++ post) = s.
Proof.
  intros Ht Hpre Hpost. destruct s as [| c r].
  - apply trim_nil_iff. unfold blank in *. rewrite forallb_app, Hpre. exact Hpost.
  - unfold tight in Ht. cbv beta iota in Ht. apply andb_prop in Ht as [Hc Hd].
    apply negb_true_iff in Hc, Hd.
    assert (forall ws t, blank ws = true -> isWhiteSpace
              (match t with [] => 0%N | a :: _ => a end) = false ->
              t <> [] -> trimStart (ws ++ t) = t) as Hstart.
    { intros ws t Hws Ha Hne. induction ws as [| w ws IH]; simpl.
      - destruct t as [| a t]; [contradiction | apply trimStart_fixed, Ha].
      - simpl in Hws. apply andb_prop in Hws as [Hw Hws]. rewrite Hw. apply IH, Hws. }
    unfold trim. rewrite (Hstart pre ((c :: r) ++ post) Hpre Hc) by discriminate.
    unfold trimEnd.
    destruct (exists_last (l := c :: r)) as (l & d & El); [discriminate |].
    rewrite El in *. rewrite last_snoc_default in Hd.
    rewrite rev_app_distr, rev_app_distr. simpl.
    rewrite (Hstart (rev post) (d :: rev l)); [| rewrite blank_rev; exact Hpost
                                                | exact Hd | discriminate].
    simpl. rewrite rev_involutive. reflexivity.
Qed.

(** *** Reading the message *)

Lemma onStdin_fulfilled_stays (stream : list Sender.StdinEvent)
    (st : Sender.StdinState) (v : jsstring) :
  Sender.promise st = Fulfilled v ->
  Sender.promise (fold_left Sender.onStdin stream st) = Fulfilled v.
Proof.
  revert st. induction stream as [| ev stream IH]; intros st H; simpl; [exact H |].
  apply IH. destruct ev; simpl; rewrite H; try reflexivity.
  destruct (negb _); reflexivity.
Qed.

Lemma readStdin_at_end
    (chunks : list jsstring) (later : list Sender.StdinEvent) :
  Sender.readStdin (List.map Sender.OnData chunks ++ Sender.OnEnd :: later)
  = if blank (List.concat chunks)
    then Rejected (Error (lit "No message input received"))
    else Fulfilled (trim (List.concat chunks)).
Proof.
  unfold Sender.readStdin. rewrite fold_left_app, onStdin_data. simpl.
  destruct (blank (List.concat chunks)) eqn:B.
  - apply onStdin_rejected_stays. simpl.
    apply trim_nil_iff in B. rewrite B. reflexivity.
  - apply onStdin_fulfilled_stays. simpl.
    destruct (trim (List.concat chunks)) as [| c r] eqn:T; [| reflexivity].
    apply trim_nil_iff in T. rewrite T in B. discriminate.
Qed.

(** When the stream ends, [readStdin] settles for good: with the
    empty-input rejection if everything read is whitespace, otherwise with
    the trimmed concatenation of the chunks; nothing the stream does later
    changes that. *)
Theorem readStdin_settles_on_end
    (chunks : list jsstring) (later : list Sender.StdinEvent) :
  Sender.readStdin (List.map Sender.OnData chunks ++ Sender.OnEnd :: later)
  = if blank (List.concat chunks)
    then Rejected (Error (lit "No message input received"))
    else Fulfilled (trim (List.concat chunks)).
Proof. apply readStdin_at_end. Qed.

(** When a read error comes before the end of the stream, [readStdin]
    rejects with the wrapped stream error, whatever follows. *)
Lemma readStdin_stream_error
    (chunks : list jsstring) (e : JsError) (later : list Sender.StdinEvent) :
  Sender.readStdin (List.map Sender.OnData chunks ++ Sender.OnError e :: later)
  = Rejected (Error (lit "Failed to read from stdin: " ++ message e)).
Proof.
  unfold Sender.readStdin. rewrite fold_left_app, onStdin_data. simpl.
  apply onStdin_rejected_stays. reflexivity.
Qed.

Lemma readStdin_only_data (chunks : list jsstring) :
  Sender.readStdin (List.map Sender.OnData chunks) = Pending.
Proof. unfold Sender.readStdin. rewrite onStdin_data. reflexivity. Qed.

(** Every stream is a run of data chunks followed by nothing, by the end of
    the stream, or by a read error. *)
Lemma stream_shape (stream : list Sender.StdinEvent) :
  exists chunks,
    stream = List.map Sender.OnData chunks
    \/ (exists later, stream = List.map Sender.OnData chunks ++ Sender.OnEnd :: later)
    \/ (exists e later,
           stream = List.map Sender.OnData chunks ++ Sender.OnError e :: later).
Proof.
  induction stream as [| ev stream (chunks & IH)].
  - exists []. left. reflexivity.
  - destruct ev as [c | | e].
    + exists (c :: chunks). destruct IH as [-> | [(later & ->) | (e & later & ->)]].
      * left. reflexivity.
      * right. left. exists later. reflexivity.
      * right. right. exists e, later. reflexivity.
    + exists []. right. left. exists stream. reflexivity.
    + exists []. right. right. exists e, stream. reflexivity.
Qed.

(** Whatever the stream, a message produced by [readStdin] is not empty,
    does not begin or end with whitespace, and is the text read up to the
    end of the stream with only whitespace removed on both sides. *)
Theorem readStdin_message_is_trimmed_input
    (stream : list Sender.StdinEvent) (msg : jsstring) :
  Sender.readStdin stream = Fulfilled msg ->
  msg <> [] /\ tight msg = true
  /\ exists chunks later pre post,
       stream = List.map Sender.OnData chunks ++ Sender.OnEnd :: later
       /\ List.concat chunks = pre ++ msg ++ post
       /\ blank pre = true /\ blank post = true.
Proof.
  intros H.
  destruct (stream_shape stream)
    as (chunks & [-> | [(later & ->) | (e & later & ->)]]).
  - rewrite readStdin_only_data in H. discriminate.
  - rewrite readStdin_at_end in H.
    destruct (blank (List.concat chunks)) eqn:B; [discriminate |].
    injection H as <-. split; [| split].
    + intros T. apply trim_nil_iff in T. rewrite T in B. discriminate.
    + apply trim_tight.
    + destruct (trim_decomp (List.concat chunks)) as (pre & post & E & Hpre & Hpost).
      exists chunks, later, pre, post. repeat split; assumption.
  - rewrite readStdin_stream_error in H. discriminate.
Qed.

Lemma readStdin_message_is_trimmed_input_witness :
  tight (lit "disk full") = true.
Proof.
  apply (readStdin_message_is_trimmed_input
           [Sender.OnData (lit "  disk "); Sender.OnData (lit "full" ++ [10%N]);
            Sender.OnEnd]
           (lit "disk full")).
  reflexivity.
Defined.

Lemma startsWith_app (a b x : jsstring) :
  startsWith a x = true -> startsWith (a ++ b) x = true.
Proof.
  revert a. induction x as [| c x IH]; intros a;
    [intros _; destruct a; [destruct b |]; reflexivity |].
  destruct a as [| d a]; simpl; [discriminate |].
  intros [Hc Hx]%andb_prop. rewrite Hc. apply IH, Hx.
Qed.

Lemma includes_app_l (a b x : jsstring) :
  includes a x = true -> includes (a ++ b) x = true.
Proof.
  induction a as [| d a IH]; simpl.
  - rewrite orb_false_r. destruct x; [| discriminate]. intros _.
    destruct b; reflexivity.
  - intros [H | H]%orb_prop; apply orb_true_iff.
    + left. apply (startsWith_app (d :: a) b x H).
    + right. apply IH, H.
Qed.

(** A read error on standard input ends the sender before any client
    exists.  The exit code is [STDIN_ERROR] (4), unless the text of the
    stream error happens to make the message contain
    ["environment variables"], in which case it is [MISSING_ENV] (2); it is
    never [DISCORD_ERROR]. *)
Theorem sender_stdin_error_exit_code
    (env : Env) (chunks : list jsstring) (e : JsError)
    (later : list Sender.StdinEvent) (w : Sender.World) :
  missingVars env = [] ->
  let text := lit "Failed to read from stdin: " ++ message e in
  Sender.main env (List.map Sender.OnData chunks ++ Sender.OnError e :: later) w
  = [ConsoleError [text];
     ProcessExit (if includes text (lit "environment variables")
                  then Sender.EXIT_CODES.MISSING_ENV
                  else Sender.EXIT_CODES.STDIN_ERROR)].
Proof.
  intros Henv text. unfold Sender.main, Sender.validateEnvironment.
  rewrite Henv, readStdin_stream_error.
  change (Sender.main_catch (Error text)
          = [ConsoleError [text];
             ProcessExit (if includes text (lit "environment variables")
                          then Sender.EXIT_CODES.MISSING_ENV
                          else Sender.EXIT_CODES.STDIN_ERROR)]).
  unfold Sender.main_catch, Error. cbn [message].
  assert (includes text (lit "stdin") = true) as ->
    by (apply includes_app_l; reflexivity).
  destruct (includes text (lit "environment variables")); reflexivity.
Qed.

Lemma sender_stdin_error_exit_code_witness :
  exitCodes
    (Sender.main Samples.env_ok
       (List.map Sender.OnData [lit "half a mess"]
          ++ Sender.OnError (Error (lit "EIO: i/o error, read")) :: [])
       (Samples.sender_world LoginReady))
  = [4%Z].
Proof.
  rewrite (sender_stdin_error_exit_code Samples.env_ok [lit "half a mess"]
             (Error (lit "EIO: i/o error, read")) []
             (Samples.sender_world LoginReady)); reflexivity.
Defined.

(** *** Whole runs of the sender *)

Ltac catch_cases :=
  unfold Sender.main_catch;
  repeat match goal with
         | |- context [if includes ?a ?b then _ else _] => destruct (includes a b)
         | H : context [if includes ?a ?b then _ else _] |- _ => destruct (includes a b)
         end.

Ltac ready_cases w :=
  unfold Sender.onShardReady, Sender.sendDM, Sender.sendDM_try;
  destruct (Sender.w_user w); [destruct (Sender.w_send w) | |]; simpl.

(** The ["shardReady"] listener of the sender: one [client.destroy] call
    before its exit, at most one [user.send] call, exit code 0 or 3. *)
Lemma onShardReady_teardown (env : Env) (w : Sender.World) (msg : jsstring) :
  let l := Sender.onShardReady env w msg in
  guardedBy isDestroy isExit false l = true
  /\ count isDestroy l = 1
  /\ count isNewClient l = 0
  /\ count isSend l <= 1
  /\ (exists c, In (ProcessExit c) l)
  /\ (forall c, In (ProcessExit c) l -> c = 0%Z \/ c = 3%Z).
Proof.
  ready_cases w; unfold count; simpl;
    (repeat split; [lia | eexists; eauto 8 |]);
    intros c H; repeat (destruct H as [H | H]; [inversion H; auto |]);
    destruct H.
Qed.

(** It exits with 0 only on the path on which the message was sent. *)
Lemma onShardReady_success (env : Env) (w : Sender.World) (msg : jsstring) :
  In (ProcessExit 0) (Sender.onShardReady env w msg) ->
  Sender.onShardReady env w msg
  = [ConsoleLog [lit "Logged in as " ++ Sender.w_tag w];
     UsersFetch (env !! DM_USER_ID); UserSend msg;
     ClientDestroy; ProcessExit 0].
Proof.
  ready_cases w; intros H; try reflexivity;
    repeat (destruct H as [H | H]; [discriminate |]); destruct H.
Qed.

Lemma count_isSend_sentTexts (t : list Event) :
  length (sentTexts t) = count isSend t.
Proof.
  unfold count. induction t as [| e t IH]; [reflexivity |].
  destruct e; simpl; rewrite ?IH; reflexivity.
Qed.

Lemma sentTexts_In (t : list Event) (text : jsstring) :
  In text (sentTexts t) -> In (UserSend text) t.
Proof.
  induction t as [| e t IH]; [intros [] |].
  destruct e; simpl; try (intros H; right; apply IH, H).
  intros [-> | H]; [left; reflexivity | right; apply IH, H].
Qed.

Lemma sentTexts_app (a b : list Event) :
  sentTexts (a ++ b) = sentTexts a ++ sentTexts b.
Proof. unfold sentTexts. apply flat_map_app. Qed.

(** A run of the sender with both listeners taking turns ends at the first
    exit; its code is 0 or 3 and at most one message was sent before it. *)
Lemma sender_interleaved_exit
    (env : Env) (w : Sender.World) (msg : jsstring) (sched : list Turn) :
  exists P c rest,
    untilExit (interleave Sender.onClientError sched
                 (Sender.onShardReady env w msg) []) = P ++ [ProcessExit c]
    /\ interleave Sender.onClientError sched (Sender.onShardReady env w msg) []
       = P ++ ProcessExit c :: rest
    /\ exitCodes P = []
    /\ 1 <= count isDestroy P
    /\ count isDestroy P <= 1 + length (List.filter isClientError sched)
    /\ count isNewClient P = 0
    /\ count isSend P <= 1
    /\ (c = 0%Z \/ c = 3%Z).
Proof.
  destruct (onShardReady_teardown env w msg) as (G & D & N & S & X & C).
  destruct (interleaved_teardown Sender.onClientError sched
              (Sender.onShardReady env w msg))
    as (P & c & rest & E1 & E2 & E3 & D1 & D2 & N1);
    try assumption; try (intros; reflexivity).
  exists P, c, rest. repeat split; try assumption.
  - pose proof (interleave_count isSend Sender.onClientError 0 sched
                  (fun _ => eq_refl) (Sender.onShardReady env w msg) []) as K.
    rewrite E2, count_app in K.
    change (List.concat []) with (@nil Event) in K. rewrite count_nil in K. lia.
  - assert (In (ProcessExit c)
              (interleave Sender.onClientError sched
                 (Sender.onShardReady env w msg) [])) as Hin.
    { rewrite E2. apply in_or_app. right. left. reflexivity. }
    apply interleave_In in Hin as [H | [[] | (e & H)]]; [apply C, H |].
    right. repeat (destruct H as [H | H]; [inversion H; reflexivity |]). destruct H.
Qed.

(** When such a run exits with 0, the message went out before the exit. *)
Lemma sender_interleaved_success
    (env : Env) (w : Sender.World) (msg : jsstring) (sched : list Turn)
    (P rest : list Event) :
  interleave Sender.onClientError sched (Sender.onShardReady env w msg) []
  = P ++ ProcessExit 0 :: rest ->
  count isSend P <= 1 ->
  sentTexts P = [msg].
Proof.
  intros E Hle.
  assert (In (ProcessExit 0) (Sender.onShardReady env w msg)) as Hzero.
  { assert (In (ProcessExit 0)
              (interleave Sender.onClientError sched
                 (Sender.onShardReady env w msg) [])) as Hin.
    { rewrite E. apply in_or_app. right. left. reflexivity. }
    apply interleave_In in Hin as [H | [[] | (e & H)]]; [exact H |].
    repeat (destruct H as [H | H]; [discriminate |]). destruct H. }
  pose proof (onShardReady_success env w msg Hzero) as L.
  assert (guardedBy isSend isSuccessExit false
            (interleave Sender.onClientError sched
               (Sender.onShardReady env w msg) []) = true) as G.
  { apply interleave_guarded; [intros; reflexivity | | constructor].
    rewrite L. reflexivity. }
  rewrite E in G.
  pose proof (guarded_prefix _ _ _ _ _ G eq_refl eq_refl) as Hsent.
  apply existsb_count in Hsent.
  rewrite <- count_isSend_sentTexts in Hsent, Hle.
  destruct (sentTexts P) as [| text [| text' more]] eqn:T; simpl in Hsent, Hle; try lia.
  f_equal.
  assert (In (UserSend text) P) as HP.
  { apply sentTexts_In. rewrite T. left. reflexivity. }
  assert (In (UserSend text)
            (interleave Sender.onClientError sched
               (Sender.onShardReady env w msg) [])) as Hin.
  { rewrite E. apply in_or_app. left. exact HP. }
  apply interleave_In in Hin as [H | [[] | (e & H)]].
  - rewrite L in H.
    repeat (destruct H as [H | H]; [inversion H; reflexivity |]). destruct H.
  - repeat (destruct H as [H | H]; [discriminate |]). destruct H.
Qed.

Lemma sender_run_ok
    (env : Env) (chunks : list jsstring) (later : list Sender.StdinEvent)
    (w : Sender.World) :
  missingVars env = [] ->
  blank (List.concat chunks) = false ->
  Sender.w_login w = LoginReady ->
  Sender.w_user w = UserFound ->
  Sender.w_send w = None ->
  Sender.main env (List.map Sender.OnData chunks ++ Sender.OnEnd :: later) w
  = [NewClient; ClientLogin (env !! BOT_TOKEN);
     ConsoleLog [lit "Logged in as " ++ Sender.w_tag w];
     UsersFetch (env !! DM_USER_ID); UserSend (trim (List.concat chunks));
     ClientDestroy; ProcessExit Sender.EXIT_CODES.SUCCESS].
Proof.
  intros Henv Hblank Hlogin Huser Hsend.
  unfold Sender.main, Sender.validateEnvironment, Sender.onShardReady,
    Sender.sendDM, Sender.sendDM_try.
  rewrite Henv, readStdin_at_end, Hblank, Hlogin, Huser, Hsend.
  reflexivity.
Qed.

(** With a complete environment, an input that is not blank, a successful
    login, a recipient that resolves and a send that is accepted, the sender
    makes exactly one [user.send] call, with the trimmed input as its text,
    then destroys the client and exits with code 0. *)
Theorem sender_delivers_trimmed_message
    (env : Env) (chunks : list jsstring) (later : list Sender.StdinEvent)
    (w : Sender.World) :
  missingVars env = [] ->
  blank (List.concat chunks) = false ->
  Sender.w_login w = LoginReady ->
  Sender.w_user w = UserFound ->
  Sender.w_send w = None ->
  Sender.main env (List.map Sender.OnData chunks ++ Sender.OnEnd :: later) w
  = [NewClient; ClientLogin (env !! BOT_TOKEN);
     ConsoleLog [lit "Logged in as " ++ Sender.w_tag w];
     UsersFetch (env !! DM_USER_ID); UserSend (trim (List.concat chunks));
     ClientDestroy; ProcessExit Sender.EXIT_CODES.SUCCESS].
Proof. apply sender_run_ok. Qed.

Lemma sender_delivers_trimmed_message_witness :
  sentTexts
    (Sender.main Samples.env_ok
       (List.map Sender.OnData [[32; 10]%N; lit "Hello, "; lit "World!" ++ [13; 10]%N]
          ++ Sender.OnEnd :: [])
       (Samples.sender_world LoginReady))
  = [lit "Hello, World!"].
Proof.
  rewrite (sender_delivers_trimmed_message Samples.env_ok
             [[32; 10]%N; lit "Hello, "; lit "World!" ++ [13; 10]%N] []
             (Samples.sender_world LoginReady)); reflexivity.
Defined.

(** Exit code 0 is only ever reported after the message went out: in any
    run that exits with 0 the input was read to its end, exactly one
    [user.send] call was made, with the message [readStdin] produced, and
    [client.destroy] was called before the exit -- also when a client
    ["error"] event is delivered while the ["shardReady"] listener is
    suspended. *)
Theorem sender_success_exit_means_sent
    (env : Env) (stream : list Sender.StdinEvent) (w : Sender.World) :
  In Sender.EXIT_CODES.SUCCESS (exitCodes (Sender.main env stream w)) ->
  exists msg,
    Sender.readStdin stream = Fulfilled msg
    /\ missingVars env = []
    /\ sentTexts (Sender.main env stream w) = [msg]
    /\ 1 <= count isDestroy (Sender.main env stream w)
    /\ destroyedBeforeExit (Sender.main env stream w) = true.
Proof.
  unfold Sender.main, Sender.validateEnvironment.
  destruct (missingVars env) as [| k ks] eqn:Henv; simpl.
  2: { catch_cases; simpl; intros [H | []]; discriminate. }
  destruct (Sender.readStdin stream) as [| msg | e] eqn:R; simpl.
  - intros [].
  - destruct (Sender.w_login w) as [e | | e | sched].
    + catch_cases; simpl; intros [H | []]; discriminate.
    + ready_cases w; try (intros [H | []]; discriminate).
      intros _. exists msg. repeat split. unfold count. simpl. lia.
    + simpl. intros [H | []]; discriminate.
    + destruct (sender_interleaved_exit env w msg sched)
        as (P & c & rest & E1 & E2 & E3 & D1 & D2 & N1 & S1 & C).
      rewrite E1, exitCodes_app, E3. intros [-> | []].
      exists msg. split; [reflexivity |]. split; [reflexivity |].
      split; [| split].
      * change (sentTexts (NewClient :: ClientLogin (env !! BOT_TOKEN)
                             :: P ++ [ProcessExit Sender.EXIT_CODES.SUCCESS]))
          with (sentTexts (P ++ [ProcessExit Sender.EXIT_CODES.SUCCESS])).
        rewrite sentTexts_app. simpl. rewrite app_nil_r.
        eapply sender_interleaved_success; [exact E2 | exact S1].
      * rewrite !count_cons, count_app. simpl. lia.
      * apply (started_run_teardown _ P _ E3 D1 N1).
  - catch_cases; simpl; intros [H | []]; discriminate.
Qed.

Lemma sender_success_exit_means_sent_witness :
  exists msg,
    sentTexts
      (Sender.main Samples.env_ok [Sender.OnData (lit "ping"); Sender.OnEnd]
         (Samples.sender_world LoginReady))
    = [msg].
Proof.
  destruct (sender_success_exit_means_sent Samples.env_ok
              [Sender.OnData (lit "ping"); Sender.OnEnd]
              (Samples.sender_world LoginReady)) as (msg & _ & _ & H & _).
  - left. reflexivity.
  - exists msg. exact H.
Defined.

(** A run of the sender either stays suspended on an input that never
    ends, or ends with exactly one [process.exit] call, which is its last
    event; the code is 0, 2, 3 or 4 and never [NO_MESSAGE] (1).  No run
    makes more than one [user.send] call. *)
Theorem sender_exit_codes
    (env : Env) (stream : list Sender.StdinEvent) (w : Sender.World) :
  (Sender.main env stream w = [] /\ Sender.readStdin stream = Pending
   \/ exists c,
        last (Sender.main env stream w) = Some (ProcessExit c)
        /\ exitCodes (Sender.main env stream w) = [c]
        /\ In c [0; 2; 3; 4]%Z)
  /\ count isSend (Sender.main env stream w) <= 1.
Proof.
  unfold Sender.main, Sender.validateEnvironment.
  destruct (missingVars env) as [| k ks] eqn:Henv; simpl.
  2: { split; [right |]; catch_cases; try (eexists; repeat split; simpl; auto);
       unfold count; simpl; lia. }
  destruct (Sender.readStdin stream) as [| msg | e] eqn:R; simpl.
  - split; [left; split; reflexivity | unfold count; simpl; lia].
  - destruct (Sender.w_login w) as [e | | e | sched].
    + split; [right |]; catch_cases; try (eexists; repeat split; simpl; auto);
        unfold count; simpl; lia.
    + unfold Sender.onShardReady, Sender.sendDM, Sender.sendDM_try.
      destruct (Sender.w_user w); [destruct (Sender.w_send w) | |];
        (split; [right; eexists; repeat split; simpl; auto 6
                | unfold count; simpl; lia]).
    + split; [right; eexists; repeat split; simpl; auto 6
             | unfold count; simpl; lia].
    + destruct (sender_interleaved_exit env w msg sched)
        as (P & c & rest & E1 & E2 & E3 & D1 & D2 & N1 & S1 & C).
      rewrite E1. split.
      * right. exists c. split; [| split].
        -- rewrite !app_comm_cons. apply last_snoc.
        -- change (exitCodes (NewClient :: ClientLogin (env !! BOT_TOKEN)
                                :: P ++ [ProcessExit c]))
             with (exitCodes (P ++ [ProcessExit c])).
           rewrite exitCodes_app, E3. reflexivity.
        -- destruct C as [-> | ->]; simpl; auto.
      * rewrite !count_cons, count_app, count_cons, count_nil. simpl. lia.
  - split; [right |]; catch_cases; try (eexists; repeat split; simpl; auto);
      unfold count; simpl; lia.
Qed.

(** When the recipient does not resolve or the platform refuses the
    message, the sender does not try again: it logs the failure prefixed with
    ["Failed to send DM: "], destroys the client and exits with
    [DISCORD_ERROR] (3), having called [user.send] at most once. *)
Theorem sender_delivery_failure
    (env : Env) (stream : list Sender.StdinEvent) (w : Sender.World)
    (msg : jsstring) :
  missingVars env = [] ->
  Sender.readStdin stream = Fulfilled msg ->
  Sender.w_login w = LoginReady ->
  (Sender.w_user w <> UserFound \/ Sender.w_send w <> None) ->
  exists t reason,
    Sender.main env stream w
    = NewClient :: ClientLogin (env !! BOT_TOKEN)
      :: ConsoleLog [lit "Logged in as " ++ Sender.w_tag w]
      :: UsersFetch (env !! DM_USER_ID)
      :: t ++ [ConsoleError [lit "Failed to send DM: " ++ reason];
               ClientDestroy; ProcessExit Sender.EXIT_CODES.DISCORD_ERROR]
    /\ (t = [] \/ t = [UserSend msg])
    /\ (Sender.w_user w = UserNull ->
        t = []
        /\ reason = lit "User " ++ template (env !! DM_USER_ID) ++ lit " not found").
Proof.
  intros Henv Hin Hlogin Hfail.
  unfold Sender.main, Sender.validateEnvironment, Sender.onShardReady,
    Sender.sendDM, Sender.sendDM_try.
  rewrite Henv, Hin, Hlogin. simpl.
  destruct (Sender.w_user w) as [| | e] eqn:U.
  - destruct (Sender.w_send w) as [e |] eqn:S.
    + exists [UserSend msg], (message e).
      split; [reflexivity | split; [right; reflexivity | discriminate]].
    + destruct Hfail as [H | H]; contradiction H; reflexivity.
  - eexists [], _.
    split; [reflexivity | split; [left; reflexivity | intros _; split; reflexivity]].
  - exists [], (message e).
    split; [reflexivity | split; [left; reflexivity | discriminate]].
Qed.

Lemma sender_delivery_failure_witness :
  exitCodes
    (Sender.main Samples.env_ok [Sender.OnData (lit "ping"); Sender.OnEnd]
       {| Sender.w_login := LoginReady; Sender.w_tag := lit "notifier#0001";
          Sender.w_user := UserNull; Sender.w_send := None |})
  = [3%Z].
Proof.
  destruct (sender_delivery_failure Samples.env_ok
              [Sender.OnData (lit "ping"); Sender.OnEnd]
              {| Sender.w_login := LoginReady; Sender.w_tag := lit "notifier#0001";
                 Sender.w_user := UserNull; Sender.w_send := None |}
              (lit "ping")) as (t & reason & H & _ & Hnull).
  - reflexivity.
  - reflexivity.
  - reflexivity.
  - left. discriminate.
  - destruct (Hnull eq_refl) as [-> ->]. rewrite H. reflexivity.
Defined.

(** Until the environment is complete and a message has been read, the
    sender builds no client and calls nothing on the platform: such a run
    consists of at most one error line and the exit. *)
Theorem sender_preflight_stays_offline
    (env : Env) (stream : list Sender.StdinEvent) (w : Sender.World) :
  (missingVars env <> [] \/ forall msg, Sender.readStdin stream <> Fulfilled msg) ->
  count isNewClient (Sender.main env stream w) = 0
  /\ count isNetwork (Sender.main env stream w) = 0
  /\ length (Sender.main env stream w) <= 2.
Proof.
  intros Hpre. unfold Sender.main, Sender.validateEnvironment.
  destruct (missingVars env) as [| k ks] eqn:Henv; simpl.
  2: { repeat split; simpl; lia. }
  destruct (Sender.readStdin stream) as [| msg | e] eqn:R; simpl.
  - repeat split; simpl; lia.
  - destruct Hpre as [H | H]; [contradiction H; reflexivity |].
    contradiction (H msg). reflexivity.
  - repeat split; simpl; lia.
Qed.

Lemma sender_preflight_stays_offline_witness :
  count isNetwork
    (Sender.main Samples.env_no_token [Sender.OnData (lit "ping"); Sender.OnEnd]
       (Samples.sender_world LoginReady))
  = 0.
Proof.
  apply (sender_preflight_stays_offline Samples.env_no_token
           [Sender.OnData (lit "ping"); Sender.OnEnd]
           (Samples.sender_world LoginReady)).
  left. discriminate.
Defined.

(** ** Further properties of the purger *)

(** *** What a run may delete *)

Lemma deletedIds_app (a b : list Event) :
  deletedIds (a ++ b) = deletedIds a ++ deletedIds b.
Proof. apply flat_map_app. Qed.

Lemma forEachMessage_targets botId (messages : list Message) :
  forall st t st' o,
    forEachMessage botId messages st = (t, st', o) ->
    (forall id, In id (deletedIds t) ->
       exists m, In m messages /\ m_id m = id /\ isBot botId m = true)
    /\ (forall x, In x (channel st') -> In x (channel st))
    /\ (forall x, In x (channel st) ->
          In x (channel st') \/ In (m_id x) (deletedIds t)).
Proof.
  induction messages as [| m rest IH]; intros st t st' o; simpl.
  - intros [= <- <- <-]. repeat split; auto. intros id [].
  - change (m_author m =? botId)%N with (isBot botId m).
    destruct (isBot botId m) eqn:B.
    2: { intros F. destruct (IH _ _ _ _ F) as (H1 & H2 & H3).
         repeat split; auto. intros id Hid.
         destruct (H1 id Hid) as (m0 & Hm0 & Hrest). exists m0. auto. }
    unfold deleteMessage. destruct (m_delete m) as [| e].
    + destruct (forEachMessage botId rest _) as [[t2 st2] o2] eqn:F.
      intros [= <- <- <-]. destruct (IH _ _ _ _ F) as (H1 & H2 & H3).
      simpl in H2, H3. repeat split.
      * intros id [<- | Hid]; [exists m; auto |].
        destruct (H1 id Hid) as (m0 & Hm0 & Hrest). exists m0. auto.
      * intros x Hx. apply H2 in Hx. apply filter_In in Hx. apply Hx.
      * intros x Hx. destruct (m_id x =? m_id m)%N eqn:E.
        -- right. left. symmetry. apply N.eqb_eq, E.
        -- destruct (H3 x) as [H | H]; [| left; exact H | right; right; exact H].
           apply filter_In. split; [exact Hx | rewrite E; reflexivity].
    + destruct (isRateLimitSignal e).
      * intros [= <- <- <-]. repeat split; auto.
        intros id [<- | []]. exists m. auto.
      * destruct (forEachMessage botId rest st) as [[t2 st2] o2] eqn:F.
        intros [= <- <- <-]. destruct (IH _ _ _ _ F) as (H1 & H2 & H3).
        repeat split; auto.
        -- intros id [<- | Hid]; [exists m; auto |].
           destruct (H1 id Hid) as (m0 & Hm0 & Hrest). exists m0. auto.
        -- intros x Hx. destruct (H3 x Hx) as [H | H]; [left | right; right]; exact H.
Qed.

Lemma purgeLoop_targets (w : World) (fuel : nat) :
  forall st t st' o,
    purgeLoop fuel w st = Some (t, st', o) ->
    (forall id, In id (deletedIds t) ->
       exists m, In m (channel st) /\ m_id m = id /\ isBot (w_botId w) m = true)
    /\ (forall x, In x (channel st') -> In x (channel st))
    /\ (forall x, In x (channel st) ->
          In x (channel st') \/ In (m_id x) (deletedIds t)).
Proof.
  induction fuel as [| fuel IH]; intros st t st' o; simpl; [discriminate |].
  unfold fetchMessages.
  destruct (w_fetchFault w (lastMessageId st));
    [intros [= <- <- <-]; repeat split; auto; intros id [] |].
  set (page := firstn RATE_LIMIT.BATCH_SIZE (visible (lastMessageId st) (channel st))).
  assert (forall m, In m page -> In m (channel st)) as Hpage.
  { intros m Hm. apply firstn_In in Hm. apply filter_In in Hm. apply Hm. }
  destruct (length page =? 0);
    [intros [= <- <- <-]; repeat split; auto; intros id [] |].
  destruct (forEachMessage (w_botId w) page st) as [[t1 st1] o1] eqn:F.
  destruct (forEachMessage_targets _ _ _ _ _ _ F) as (H1 & H2 & H3).
  assert (forall id, In id (deletedIds t1) ->
            exists m, In m (channel st) /\ m_id m = id /\ isBot (w_botId w) m = true)
    as H1'.
  { intros id Hid. destruct (H1 id Hid) as (m & Hm & Hrest). exists m. auto. }
  destruct o1 as [[] | e]; [| intros [= <- <- <-]; repeat split; auto].
  destruct (lastId page) as [c | e].
  - destruct (purgeLoop fuel w _) as [[[t2 st3] o2] |] eqn:R; [| discriminate].
    intros [= <- <- <-]. destruct (IH _ _ _ _ R) as (K1 & K2 & K3).
    simpl in K1, K2, K3.
    change (deletedIds (MessagesFetch (lastMessageId st) RATE_LIMIT.BATCH_SIZE
                          :: t1 ++ MessagesLast (length page) :: t2))
      with (deletedIds (t1 ++ MessagesLast (length page) :: t2)).
    rewrite deletedIds_app.
    change (deletedIds (MessagesLast (length page) :: t2)) with (deletedIds t2).
    repeat split.
    + intros id [Hid | Hid]%in_app_or; [auto |].
      destruct (K1 id Hid) as (m & Hm & Hrest). exists m. auto.
    + auto.
    + intros x Hx. destruct (H3 x Hx) as [H | H].
      * destruct (K3 x H) as [K | K]; [left; exact K |].
        right. apply in_or_app. right. exact K.
      * right. apply in_or_app. left. exact H.
  - intros [= <- <- <-].
    change (deletedIds (MessagesFetch (lastMessageId st) RATE_LIMIT.BATCH_SIZE
                          :: t1 ++ [MessagesLast (length page)]))
      with (deletedIds (t1 ++ [MessagesLast (length page)])).
    rewrite deletedIds_app. simpl. rewrite app_nil_r. repeat split; auto.
Qed.

Lemma deleteBotMessagesFromDM_targets (w : World) (fuel : nat) userId t st o :
  deleteBotMessagesFromDM fuel w userId = Some (t, st, o) ->
  (forall id, In id (deletedIds t) ->
     exists m, In m (w_channel w) /\ m_id m = id /\ isBot (w_botId w) m = true)
  /\ (forall x, In x (channel st) -> In x (w_channel w))
  /\ (forall x, In x (w_channel w) ->
        In x (channel st) \/ In (m_id x) (deletedIds t)).
Proof.
  unfold deleteBotMessagesFromDM, deleteBotMessagesFromDM_try.
  destruct (w_user w);
    [| intros [= <- <- <-]; repeat split; auto; intros id [] ..].
  destruct (w_createDM w);
    [intros [= <- <- <-]; repeat split; auto; intros id [] |].
  destruct (purgeLoop fuel w (initial w)) as [[[t1 st1] o1] |] eqn:R; [| discriminate].
  pose proof (purgeLoop_targets _ _ _ _ _ _ R) as H. simpl in H.
  destruct o1; intros [= <- <- <-]; exact H.
Qed.

(** Whatever the platform answers, every [message.delete()] call of a run
    is made on a message of the conversation that the bot itself wrote. *)
Theorem purge_only_deletes_bot_messages
    (w : World) (fuel : nat) (userId : option jsstring) t st o :
  deleteBotMessagesFromDM fuel w userId = Some (t, st, o) ->
  Forall (fun id => exists m, In m (w_channel w) /\ m_id m = id
                              /\ m_author m = w_botId w)
    (deletedIds t).
Proof.
  intros H. apply List.Forall_forall. intros id Hid.
  destruct (deleteBotMessagesFromDM_targets _ _ _ _ _ _ H) as (H1 & _).
  destruct (H1 id Hid) as (m & Hm & Hidm & Hbot).
  exists m. repeat split; try assumption. apply N.eqb_eq, Hbot.
Qed.

Lemma purge_only_deletes_bot_messages_witness :
  Forall (fun id => exists m, In m Samples.chan_limited /\ m_id m = id
                              /\ m_author m = 7%N)
    [9%N; 7%N].
Proof.
  apply (purge_only_deletes_bot_messages
           (Samples.purger_world LoginReady Samples.chan_limited) 5 None
           _ _ _ eq_refl).
Defined.

(** When identifiers are unique, no run ever removes a message that the bot
    did not write: whatever faults occur, every such message is still in the
    conversation afterwards, and the run adds nothing to the conversation. *)
Theorem purge_keeps_other_messages
    (w : World) (fuel : nat) (userId : option jsstring) t st o :
  List.NoDup (List.map m_id (w_channel w)) ->
  deleteBotMessagesFromDM fuel w userId = Some (t, st, o) ->
  (forall x, In x (w_channel w) -> isBot (w_botId w) x = false -> In x (channel st))
  /\ (forall x, In x (channel st) -> In x (w_channel w)).
Proof.
  intros Hnd H.
  destruct (deleteBotMessagesFromDM_targets _ _ _ _ _ _ H) as (H1 & H2 & H3).
  split; [| exact H2]. intros x Hx Hbot.
  destruct (H3 x Hx) as [Hin | Hid]; [exact Hin | exfalso].
  destruct (H1 _ Hid) as (m & Hm & Hidm & Hb).
  rewrite (NoDup_map_inj m_id _ m x Hnd Hm Hx Hidm) in Hb.
  rewrite Hb in Hbot. discriminate.
Qed.

Lemma purge_keeps_other_messages_witness :
  exists st,
    In (Samples.by_user 8) (channel st).
Proof.
  destruct (deleteBotMessagesFromDM 5
              (Samples.purger_world LoginReady Samples.chan_limited) None)
    as [[[t st] o] |] eqn:R; [| discriminate R].
  exists st.
  apply (purge_keeps_other_messages
           (Samples.purger_world LoginReady Samples.chan_limited) 5 None t st o).
  - repeat constructor; simpl; intuition discriminate.
  - exact R.
  - right. left. reflexivity.
  - reflexivity.
Defined.

(** *** What the returned count counts *)

Lemma logged_app (a b : list Event) : logged (a ++ b) = logged a ++ logged b.
Proof. apply flat_map_app. Qed.

Lemma forEachMessage_tally botId (messages : list Message) :
  forall st t st' o,
    forEachMessage botId messages st = (t, st', o) ->
    messagesDeleted st' = messagesDeleted st + length (logged t)
    /\ count isDelay t = length (logged t)
    /\ length (logged t) <= count isDelete t.
Proof.
  induction messages as [| m rest IH]; intros st t st' o; simpl.
  - intros [= <- <- <-]. repeat split; simpl; lia.
  - destruct (m_author m =? botId)%N; [| apply IH].
    unfold deleteMessage. destruct (m_delete m) as [| e].
    + destruct (forEachMessage botId rest _) as [[t2 st2] o2] eqn:F.
      intros [= <- <- <-]. destruct (IH _ _ _ _ F) as (H1 & H2 & H3).
      simpl in H1. rewrite !count_cons. simpl. lia.
    + destruct (isRateLimitSignal e).
      * intros [= <- <- <-]. repeat split; simpl; lia.
      * destruct (forEachMessage botId rest st) as [[t2 st2] o2] eqn:F.
        intros [= <- <- <-]. destruct (IH _ _ _ _ F) as (H1 & H2 & H3).
        rewrite !count_cons. simpl. lia.
Qed.

Lemma purgeLoop_tally (w : World) (fuel : nat) :
  forall st t st' o,
    purgeLoop fuel w st = Some (t, st', o) ->
    messagesDeleted st' = messagesDeleted st + length (logged t)
    /\ count isDelay t = length (logged t)
    /\ length (logged t) <= count isDelete t
    /\ match o with
       | Returned n => n = messagesDeleted st'
       | Thrown _ => True
       end.
Proof.
  induction fuel as [| fuel IH]; intros st t st' o; simpl; [discriminate |].
  destruct (fetchMessages w (channel st) (lastMessageId st) RATE_LIMIT.BATCH_SIZE)
    as [messages | e];
    [| intros [= <- <- <-]; rewrite !count_cons; repeat split; simpl; lia].
  destruct (length messages =? 0);
    [intros [= <- <- <-]; rewrite !count_cons; repeat split; simpl; lia |].
  destruct (forEachMessage (w_botId w) messages st) as [[t1 st1] o1] eqn:F.
  destruct (forEachMessage_tally _ _ _ _ _ _ F) as (H1 & H2 & H3).
  destruct o1 as [[] | e];
    [| intros [= <- <- <-]; rewrite !count_cons; repeat split; simpl; lia].
  destruct (lastId messages) as [c | e].
  - destruct (purgeLoop fuel w _) as [[[t2 st3] o2] |] eqn:R; [| discriminate].
    intros [= <- <- <-]. destruct (IH _ _ _ _ R) as (K1 & K2 & K3 & K4).
    simpl in K1.
    change (MessagesFetch (lastMessageId st) RATE_LIMIT.BATCH_SIZE
              :: t1 ++ MessagesLast (length messages) :: t2)
      with ((MessagesFetch (lastMessageId st) RATE_LIMIT.BATCH_SIZE :: t1)
              ++ MessagesLast (length messages) :: t2).
    rewrite logged_app, !count_app, !count_cons, length_app. simpl.
    change (flat_map
              (fun e => match e with ConsoleLog args => [args] | _ => [] end) t1)
      with (logged t1).
    change (flat_map
              (fun e => match e with ConsoleLog args => [args] | _ => [] end) t2)
      with (logged t2).
    repeat split; try lia. exact K4.
  - intros [= <- <- <-].
    change (MessagesFetch (lastMessageId st) RATE_LIMIT.BATCH_SIZE
              :: t1 ++ [MessagesLast (length messages)])
      with ((MessagesFetch (lastMessageId st) RATE_LIMIT.BATCH_SIZE :: t1)
              ++ [MessagesLast (length messages)]).
    rewrite logged_app, !count_app, !count_cons, length_app. simpl.
    change (flat_map
              (fun e => match e with ConsoleLog args => [args] | _ => [] end) t1)
      with (logged t1).
    change (count isDelay []) with 0. change (count isDelete []) with 0.
    repeat split; try lia.
Qed.

(** Whatever the platform answers, the number a run returns is the number
    of deletions it reported on the console; each of them was followed by
    one pause, and none was counted without a [message.delete()] call. *)
Theorem purge_count_matches_reported_deletions
    (w : World) (fuel : nat) (userId : option jsstring) t st (n : nat) :
  deleteBotMessagesFromDM fuel w userId = Some (t, st, Returned n) ->
  n = length (logged t)
  /\ count isDelay t = n
  /\ n <= count isDelete t
  /\ Forall (fun line => exists id, line = [lit "Deleted message ID: " ++ showN id])
       (logged t).
Proof.
  unfold deleteBotMessagesFromDM, deleteBotMessagesFromDM_try.
  destruct (w_user w); [| discriminate ..].
  destruct (w_createDM w); [discriminate |].
  destruct (purgeLoop fuel w (initial w)) as [[[t1 st1] o1] |] eqn:R; [| discriminate].
  destruct o1 as [k | e]; intros [= <- <- <-].
  destruct (purgeLoop_tally _ _ _ _ _ _ R) as (H1 & H2 & H3 & H4).
  simpl in H1. rewrite !count_cons. simpl.
  change (flat_map (fun e => match e with ConsoleLog args => [args] | _ => [] end) t1)
    with (logged t1).
  repeat split; try lia.
  clear - R. revert R. generalize (initial w) as st0. revert t1 st1.
  generalize (Returned (A := nat) k) as o.
  induction fuel as [| fuel IH]; intros o t st' st R; simpl in R; [discriminate |].
  destruct (fetchMessages w (channel st) (lastMessageId st) RATE_LIMIT.BATCH_SIZE)
    as [messages | e]; [| injection R as <- _ _; constructor].
  destruct (length messages =? 0); [injection R as <- _ _; constructor |].
  destruct (forEachMessage (w_botId w) messages st) as [[t1 st1] o1] eqn:F.
  assert (Forall (fun line => exists id, line = [lit "Deleted message ID: " ++ showN id])
            (logged t1)) as Hpage.
  { clear - F. revert st t1 st1 o1 F.
    induction messages as [| m rest IHm]; intros st t1 st1 o1; simpl.
    - intros [= <- <- <-]. constructor.
    - destruct (m_author m =? w_botId w)%N; [| apply IHm].
      unfold deleteMessage. destruct (m_delete m) as [| e].
      + destruct (forEachMessage (w_botId w) rest _) as [[t2 st2] o2] eqn:F.
        intros [= <- <- <-]. simpl. constructor; [eexists; reflexivity |].
        eapply IHm; eassumption.
      + destruct (isRateLimitSignal e).
        * intros [= <- <- <-]. constructor.
        * destruct (forEachMessage (w_botId w) rest st) as [[t2 st2] o2] eqn:F.
          intros [= <- <- <-]. simpl. eapply IHm; eassumption. }
  destruct o1 as [[] | e]; [| injection R as <- _ _; exact Hpage].
  destruct (lastId messages) as [c | e].
  - destruct (purgeLoop fuel w _) as [[[t2 st3] o2] |] eqn:R2; [| discriminate].
    injection R as <- _ _.
    change (logged (MessagesFetch (lastMessageId st) RATE_LIMIT.BATCH_SIZE
                      :: t1 ++ MessagesLast (length messages) :: t2))
      with (logged (t1 ++ MessagesLast (length messages) :: t2)).
    rewrite logged_app. apply Forall_app. split; [exact Hpage |].
    change (logged (MessagesLast (length messages) :: t2)) with (logged t2).
    eapply IH; eassumption.
  - injection R as <- _ _.
    change (logged (MessagesFetch (lastMessageId st) RATE_LIMIT.BATCH_SIZE
                      :: t1 ++ [MessagesLast (length messages)]))
      with (logged (t1 ++ [MessagesLast (length messages)])).
    rewrite logged_app. apply Forall_app. split; [exact Hpage | constructor].
Qed.

Lemma purge_count_matches_reported_deletions_witness :
  count isDelay
    [UsersFetch None; UserCreateDM; MessagesFetch None 50; MessageDelete 9%N;
     ConsoleLog [lit "Deleted message ID: 9"]; Delay 1000; MessageDelete 8%N;
     ConsoleError [lit "Failed to delete message 8:"; lit "Unknown Message"];
     MessageDelete 5%N; ConsoleLog [lit "Deleted message ID: 5"]; Delay 1000;
     MessagesLast 4; MessagesFetch (Some 5%N) 50]
  = 2.
Proof.
  apply (purge_count_matches_reported_deletions
           (Samples.purger_world LoginReady Samples.chan_fault) 5 None _ _ 2 eq_refl).
Defined.

(** *** How many page requests a run may issue *)

Lemma purgeLoop_fetch_bound (w : World) (fuel : nat) :
  forall st t st' o,
    purgeLoop fuel w st = Some (t, st', o) ->
    count isFetch t <= S (length (visible (lastMessageId st) (channel st))).
Proof.
  induction fuel as [| fuel IH]; intros st t st' o; simpl; [discriminate |].
  unfold fetchMessages.
  destruct (w_fetchFault w (lastMessageId st));
    [intros [= <- <- <-]; unfold count; simpl; lia |].
  set (page := firstn RATE_LIMIT.BATCH_SIZE (visible (lastMessageId st) (channel st))).
  destruct (length page =? 0) eqn:Hsize;
    [intros [= <- <- <-]; unfold count; simpl; lia |].
  assert (page <> []) as Hne by (intros E; rewrite E in Hsize; discriminate).
  destruct (forEachMessage (w_botId w) page st) as [[t1 st1] o1] eqn:F.
  pose proof (quiet_count_fetch t1 (forEachMessage_quiet _ _ _ _ _ _ F)) as Hq.
  destruct o1 as [[] | e];
    [| intros [= <- <- <-]; rewrite count_cons, Hq; simpl; lia].
  destruct (lastId_of_page (lastMessageId st) (channel st) page _ eq_refl Hne)
    as (m & _ & -> & _ & Hin & Hold).
  destruct (purgeLoop fuel w _) as [[[t2 st3] o2] |] eqn:R; [| discriminate].
  intros [= <- <- <-]. specialize (IH _ _ _ _ R). simpl in IH.
  pose proof (forEachMessage_shrinks _ _ (olderThan (Some (m_id m))) _ _ _ _ F) as Hle.
  pose proof (visible_decreases _ _ _ _ Hin Hold Hle).
  rewrite count_cons, count_app, count_cons, Hq. simpl. lia.
Qed.

(** Whatever the platform answers and however the conversation is ordered,
    a run on a conversation of M messages issues at most M + 1 page
    requests. *)
Theorem purge_page_requests_bounded
    (w : World) (fuel : nat) (userId : option jsstring) t st o :
  deleteBotMessagesFromDM fuel w userId = Some (t, st, o) ->
  count isFetch t <= S (length (w_channel w)).
Proof.
  unfold deleteBotMessagesFromDM, deleteBotMessagesFromDM_try.
  destruct (w_user w); [| intros [= <- <- <-]; unfold count; simpl; lia ..].
  destruct (w_createDM w); [intros [= <- <- <-]; unfold count; simpl; lia |].
  destruct (purgeLoop fuel w (initial w)) as [[[t1 st1] o1] |] eqn:R; [| discriminate].
  pose proof (purgeLoop_fetch_bound _ _ _ _ _ _ R) as H.
  simpl in H. rewrite visible_all in H.
  destruct o1; intros [= <- <- <-]; rewrite !count_cons; simpl; exact H.
Qed.

Lemma purge_page_requests_bounded_witness :
  count isFetch
    [UsersFetch None; UserCreateDM; MessagesFetch None 50; MessagesLast 2;
     MessagesFetch (Some 4%N) 50]
  <= 3.
Proof.
  apply (purge_page_requests_bounded
           (Samples.purger_world LoginReady Samples.chan_users) 3 None _ _ _ eq_refl).
Defined.

(** *** Running the purger again *)

Lemma reachable_rerun (w : World) (chan : list Message) :
  reachable w -> reachable (rerun w chan).
Proof. intros H. exact H. Qed.

(** After a purge in which every deletion succeeded, a second purge of the
    conversation the first one left behind deletes nothing: it makes no
    [message.delete()] call, returns 0 and leaves the conversation as it
    found it. *)
Theorem purge_twice_deletes_nothing_more
    (w : World) (fuel : nat) (userId : option jsstring) :
  reachable w ->
  newestFirst (w_channel w) ->
  length (w_channel w) < fuel ->
  Forall (fun m => m_delete m = DeleteOk)
    (List.filter (isBot (w_botId w)) (w_channel w)) ->
  exists t1 st1 t2 st2,
    deleteBotMessagesFromDM fuel w userId
    = Some (t1, st1, Returned (length (List.filter (isBot (w_botId w)) (w_channel w))))
    /\ deleteBotMessagesFromDM fuel (rerun w (channel st1)) userId
       = Some (t2, st2, Returned 0)
    /\ deletedIds t2 = []
    /\ channel st2 = channel st1.
Proof.
  intros Hreach Hsorted Hlen Hok. rewrite List.Forall_forall in Hok.
  destruct (purge_completes w fuel userId Hreach Hsorted Hlen)
    as (t1 & st1 & Hrun1 & _ & _ & Hchan1).
  { intros m Hm Hbot. unfold rateLimited.
    rewrite (Hok m); [reflexivity |]. apply filter_In. split; assumption. }
  rewrite (succeeds_all _ Hok) in Hrun1.
  assert (List.filter (isBot (w_botId w)) (channel st1) = []) as Hnone.
  { rewrite Hchan1, filter_filter. apply filter_none. intros x Hx.
    destruct (isBot (w_botId w) x) eqn:B; [| apply andb_false_r].
    unfold succeeds. rewrite (Hok x); [reflexivity |].
    apply filter_In. split; assumption. }
  destruct (purge_completes (rerun w (channel st1)) fuel userId)
    as (t2 & st2 & Hrun2 & Heff2 & _ & Hchan2).
  - apply reachable_rerun, Hreach.
  - simpl. rewrite Hchan1. apply newestFirst_filter, Hsorted.
  - simpl. rewrite Hchan1. pose proof (List.filter_length_le
      (fun x => negb (isBot (w_botId w) x && succeeds x)) (w_channel w)). lia.
  - simpl. intros m Hm Hbot.
    assert (In m (List.filter (isBot (w_botId w)) (channel st1))) as Hin
      by (apply filter_In; split; assumption).
    rewrite Hnone in Hin. destruct Hin.
  - simpl in Hrun2, Heff2, Hchan2. rewrite Hnone in Hrun2, Heff2.
    exists t1, st1, t2, st2. repeat split; try assumption.
    + rewrite <- deletedIds_effects, Heff2. reflexivity.
    + rewrite Hchan2. apply filter_all. intros x Hx.
      destruct (isBot (w_botId w) x) eqn:B; [| reflexivity]. exfalso.
      assert (In x (List.filter (isBot (w_botId w)) (channel st1))) as Hin
        by (apply filter_In; split; assumption).
      rewrite Hnone in Hin. destruct Hin.
Qed.

Lemma purge_twice_deletes_nothing_more_witness :
  exists t1 st1 t2 st2,
    deleteBotMessagesFromDM 4 (Samples.purger_world LoginReady Samples.chan_clean) None
    = Some (t1, st1, Returned 2)
    /\ deleteBotMessagesFromDM 4
         (rerun (Samples.purger_world LoginReady Samples.chan_clean) (channel st1)) None
       = Some (t2, st2, Returned 0).
Proof.
  destruct (purge_twice_deletes_nothing_more
              (Samples.purger_world LoginReady Samples.chan_clean) 4 None)
    as (t1 & st1 & t2 & st2 & H1 & H2 & _).
  - repeat split.
  - repeat constructor.
  - simpl. lia.
  - repeat constructor.
  - exists t1, st1, t2, st2. split; assumption.
Defined.

(** *** What an aborted run leaves behind *)

Lemma untouched_after_prefix botId (pre tail : list Message) :
  newestFirst (pre ++ tail) ->
  List.filter
    (fun x => negb (existsb (sameId x)
                      (List.filter succeeds (List.filter (isBot botId) pre))))
    tail
  = tail.
Proof.
  intros Hsorted. apply filter_all. intros x Hx.
  destruct (existsb _ _) eqn:X; [exfalso | reflexivity].
  apply existsb_exists in X as (y & Hy & Hid).
  apply filter_In in Hy as [Hy _]. apply filter_In in Hy as [Hy _].
  apply N.eqb_eq in Hid.
  pose proof (StronglySorted_app_1_elem_of _ pre tail y x Hsorted) as Hlt.
  simpl in Hlt. rewrite Hid in Hlt.
  apply (N.lt_irrefl (m_id y)), Hlt; apply list_elem_of_In; assumption.
Qed.

(** A rate-limit abort rolls nothing back and touches nothing further: the
    bot messages before the failing one are gone, the failing message and
    everything older are still in the conversation. *)
Theorem purge_abort_keeps_progress
    (w : World) (fuel : nat) (userId : option jsstring)
    (pre post : list Message) (m : Message) :
  reachable w ->
  newestFirst (w_channel w) ->
  length (w_channel w) < fuel ->
  w_channel w = pre ++ m :: post ->
  Forall (fun x => m_delete x = DeleteOk) (List.filter (isBot (w_botId w)) pre) ->
  isBot (w_botId w) m = true ->
  rateLimited m = true ->
  exists t st e,
    deleteBotMessagesFromDM fuel w userId = Some (t, st, Thrown e)
    /\ channel st
       = List.filter (fun x => negb (isBot (w_botId w) x)) pre ++ m :: post.
Proof.
  intros (Huser & Hdm & Hfault) Hsorted Hlen Hsplit Hpre Hbot Hrl.
  rewrite List.Forall_forall in Hpre.
  assert (forall x, In x pre -> isBot (w_botId w) x = true -> rateLimited x = false)
    as Hok.
  { intros x Hx Hb. unfold rateLimited.
    rewrite (Hpre x); [reflexivity |]. apply filter_In. split; assumption. }
  destruct (forEachMessage_completes (w_botId w) pre (initial w) Hok)
    as (st1 & F1 & _).
  pose proof (forEachMessage_removes _ _ _ _ _ _ Hok F1) as Hchan1.
  assert (forEachMessage (w_botId w) (w_channel w) (initial w)
          = (flat_map messageEvents (List.filter (isBot (w_botId w)) pre)
               ++ [MessageDelete (m_id m)],
             st1, Thrown (Error (lit "Rate limit exceeded")))) as F.
  { rewrite Hsplit, forEachMessage_app, F1. simpl.
    unfold isBot in Hbot. rewrite Hbot.
    unfold deleteMessage. unfold rateLimited in Hrl.
    destruct (m_delete m) as [| e]; [discriminate |]. rewrite Hrl. reflexivity. }
  destruct (purgeLoop_initial w fuel _ _ _ Hfault Hsorted Hlen F)
    as (tl & stl & Hrun & _ & Hchan & _).
  unfold deleteBotMessagesFromDM, deleteBotMessagesFromDM_try.
  rewrite Huser, Hdm, Hrun. eexists _, _, _. split; [reflexivity |].
  rewrite Hchan, Hchan1. simpl. rewrite Hsplit in *.
  rewrite List.filter_app.
  rewrite (untouched_after_prefix _ pre (m :: post) Hsorted).
  f_equal. rewrite channel_after_pass
    by (apply (StronglySorted_app_1_l _ pre (m :: post)), Hsorted).
  apply List.filter_ext_in. intros x Hx.
  destruct (isBot (w_botId w) x) eqn:B; [| reflexivity].
  unfold succeeds. rewrite (Hpre x); [reflexivity |].
  apply filter_In. split; assumption.
Qed.

Lemma purge_abort_keeps_progress_witness :
  exists t st e,
    deleteBotMessagesFromDM 5 (Samples.purger_world LoginReady Samples.chan_limited) None
    = Some (t, st, Thrown e)
    /\ channel st
       = [Samples.by_user 8;
          Samples.by_bot 7 (DeleteFault Samples.missing_permissions);
          Samples.by_bot 6 DeleteOk].
Proof.
  apply (purge_abort_keeps_progress
           (Samples.purger_world LoginReady Samples.chan_limited) 5 None
           [Samples.by_bot 9 DeleteOk; Samples.by_user 8]
           [Samples.by_bot 6 DeleteOk]
           (Samples.by_bot 7 (DeleteFault Samples.missing_permissions))).
  - repeat split.
  - repeat constructor.
  - simpl. lia.
  - reflexivity.
  - repeat constructor.
  - reflexivity.
  - reflexivity.
Defined.

(** *** Whole runs of the purger *)

(** When the recipient cannot be resolved, the conversation cannot be
    opened or the first page request fails, the purger deletes nothing: it
    reports the fault prefixed with ["Failed to delete messages: "], destroys
    the client and exits with [DISCORD_ERROR] (2), or with [RATE_LIMIT] (3)
    when the fault's text happens to contain ["Rate limit"]. *)
Theorem purger_setup_fault
    (env : Env) (w : World) (fuel : nat) :
  missingVars env = [] ->
  w_login w = LoginReady ->
  (w_user w <> UserFound \/ w_createDM w <> None \/ w_fetchFault w None <> None) ->
  exists pre reason,
    main (S fuel) env w
    = Some (NewClient :: ClientLogin (env !! BOT_TOKEN)
            :: ConsoleLog [lit "Logged in as " ++ w_tag w]
            :: UsersFetch (env !! DM_USER_ID)
            :: pre ++
               [ConsoleError [lit "Error:"; lit "Failed to delete messages: " ++ reason];
                ClientDestroy;
                ProcessExit
                  (if includes (lit "Failed to delete messages: " ++ reason)
                        (lit "Rate limit")
                   then EXIT_CODES.RATE_LIMIT
                   else EXIT_CODES.DISCORD_ERROR)])
    /\ count isDelete pre = 0
    /\ (pre = [] \/ pre = [UserCreateDM]
        \/ pre = [UserCreateDM; MessagesFetch None RATE_LIMIT.BATCH_SIZE]).
Proof.
  intros Henv Hlogin Hfault.
  unfold main, validateEnvironment, onReady, deleteBotMessagesFromDM,
    deleteBotMessagesFromDM_try.
  rewrite Henv, Hlogin.
  destruct (w_user w) as [| | e] eqn:U.
  - destruct (w_createDM w) as [e |] eqn:D.
    + exists [UserCreateDM], (message e). repeat split; auto.
    + unfold purgeLoop, fetchMessages. simpl.
      destruct (w_fetchFault w None) as [e |] eqn:Ff.
      * exists [UserCreateDM; MessagesFetch None RATE_LIMIT.BATCH_SIZE], (message e).
        repeat split; auto.
      * destruct Hfault as [H | [H | H]]; contradiction H; reflexivity.
  - eexists [], _. repeat split; auto.
  - exists [], (message e). repeat split; auto.
Qed.

Lemma purger_setup_fault_witness :
  exists pre : list Event,
    count isDelete pre = 0
    /\ (pre = [] \/ pre = [UserCreateDM]
        \/ pre = [UserCreateDM; MessagesFetch None RATE_LIMIT.BATCH_SIZE]).
Proof.
  destruct (purger_setup_fault Samples.env_ok
              {| w_login := LoginReady; w_tag := lit "notifier#0001"; w_botId := 7%N;
                 w_user := UserFound; w_createDM := None;
                 w_channel := Samples.chan_clean;
                 w_fetchFault := fun _ => Some (Error (lit "Rate limit hit on fetch")) |}
              0) as (pre & reason & _ & H).
  - reflexivity.
  - reflexivity.
  - right. right. discriminate.
  - exists pre. exact H.
Defined.

(** On a well-ordered conversation where the platform answers every
    request and every deletion succeeds, the purger prints the number of bot
    messages as the count of deleted messages, destroys the client and
    exits with code 0. *)
Theorem purger_reports_count_and_succeeds
    (env : Env) (w : World) (fuel : nat) :
  missingVars env = [] ->
  w_login w = LoginReady ->
  reachable w ->
  newestFirst (w_channel w) ->
  length (w_channel w) < fuel ->
  Forall (fun m => m_delete m = DeleteOk)
    (List.filter (isBot (w_botId w)) (w_channel w)) ->
  exists t,
    main fuel env w
    = Some (NewClient :: ClientLogin (env !! BOT_TOKEN)
            :: ConsoleLog [lit "Logged in as " ++ w_tag w]
            :: t ++
               [ConsoleLog
                  [[9989%N] ++ lit " Finished. Deleted "
                     ++ showNat (length (List.filter (isBot (w_botId w)) (w_channel w)))
                     ++ lit " messages."];
                ClientDestroy; ProcessExit EXIT_CODES.SUCCESS])
    /\ deletedIds t = List.map m_id (List.filter (isBot (w_botId w)) (w_channel w)).
Proof.
  intros Henv Hlogin Hreach Hsorted Hlen Hok. rewrite List.Forall_forall in Hok.
  destruct (purge_completes w fuel (env !! DM_USER_ID) Hreach Hsorted Hlen)
    as (t & st & Hrun & Heff & _).
  { intros m Hm Hbot. unfold rateLimited.
    rewrite (Hok m); [reflexivity |]. apply filter_In. split; assumption. }
  rewrite (succeeds_all _ Hok) in Hrun.
  exists t. split.
  - unfold main, validateEnvironment, onReady. rewrite Henv, Hlogin, Hrun. reflexivity.
  - rewrite <- deletedIds_effects, Heff. apply deletedIds_messageEvents.
Qed.

Lemma purger_reports_count_and_succeeds_witness :
  exists t,
    main 4 Samples.env_ok (Samples.purger_world LoginReady Samples.chan_clean)
    = Some (t ++ [ConsoleLog [[9989%N] ++ lit " Finished. Deleted 2 messages."];
                  ClientDestroy; ProcessExit 0]).
Proof.
  destruct (purger_reports_count_and_succeeds Samples.env_ok
              (Samples.purger_world LoginReady Samples.chan_clean) 4)
    as (t & H & _).
  - vm_compute. reflexivity.
  - reflexivity.
  - repeat split.
  - repeat constructor.
  - simpl. lia.
  - repeat constructor.
  - eexists (_ :: _ :: _ :: t). exact H.
Defined.

(** ** The certificate check *)

Lemma wrap64_small (z : Z) :
  (- 2 ^ 63 <= z < 2 ^ 63)%Z -> SslCheck.wrap64 z = z.
Proof.
  intros H. unfold SslCheck.wrap64. rewrite Z.mod_small; lia.
Qed.

Lemma quot_day_bounds (a : Z) :
  (0 <= a)%Z ->
  (0 <= Z.quot a 86400 /\ 86400 * Z.quot a 86400 <= a < 86400 * (Z.quot a 86400 + 1))%Z.
Proof.
  intros H. rewrite Z.quot_div_nonneg by lia.
  pose proof (Z.div_mod a 86400). pose proof (Z.mod_pos_bound a 86400).
  pose proof (Z.div_pos a 86400). lia.
Qed.

Lemma quot_day_nonpos (a : Z) : (a <= 0)%Z -> (Z.quot a 86400 <= 0)%Z.
Proof.
  intros H. replace a with (- (- a))%Z by lia. rewrite Z.quot_opp_l by lia.
  destruct (quot_day_bounds (- a)%Z) as [H0 _]; lia.
Qed.

Lemma quot_day_threshold (a : Z) :
  (Z.quot a 86400 <= 14 <-> a < 15 * 86400)%Z.
Proof.
  destruct (Z.le_gt_cases 0 a) as [Hpos | Hneg].
  - destruct (quot_day_bounds a Hpos) as (_ & Hlo & Hhi). lia.
  - pose proof (quot_day_nonpos a). lia.
Qed.

(** The script sends at most one notification per run, and it sends one
    exactly when fewer than 15 times 86400 seconds separate the clock from
    the expiry date: a certificate with 14 days and some hours left already
    triggers the warning, an expired one always does. *)
Theorem ssl_check_notifies_below_fifteen_days
    (expires_at now now' : Z) (friendly_date : jsstring) :
  (now <= now')%Z ->
  (- 2 ^ 63 <= expires_at - now' < 2 ^ 63)%Z ->
  (SslCheck.notifications (SslCheck.check expires_at now now' friendly_date) = []
   <-> (15 * 86400 <= expires_at - now')%Z)
  /\ length (SslCheck.notifications
               (SslCheck.check expires_at now now' friendly_date)) <= 1.
Proof.
  intros Hclock Hrange. unfold SslCheck.check, SslCheck.get_days_until_expiration,
    SslCheck.is_below_threshold, SslCheck.THRESHOLD_DAYS.
  rewrite (wrap64_small _ Hrange).
  pose proof (quot_day_threshold (expires_at - now')) as Hq.
  destruct (now <? expires_at)%Z eqn:Hvalid.
  - destruct (Z.quot (expires_at - now') 86400 <=? 14)%Z eqn:Hdays; simpl.
    + apply Z.leb_le in Hdays. split; [| lia]. split; [discriminate | lia].
    + apply Z.leb_gt in Hdays. split; [| lia]. split; [lia | reflexivity].
  - apply Z.ltb_ge in Hvalid. simpl. split; [| lia]. split; [discriminate | lia].
Qed.

Lemma ssl_check_notifies_below_fifteen_days_witness :
  SslCheck.notifications
    (SslCheck.check 1767225600 1765929601 1765929601 (lit "January 01, 2026"))
  = [] <-> (15 * 86400 <= 1767225600 - 1765929601)%Z.
Proof.
  apply (ssl_check_notifies_below_fifteen_days
           1767225600 1765929601 1765929601 (lit "January 01, 2026")); lia.
Defined.

(** While the certificate is still valid at both clock readings, the
    number of days the script announces is the number of whole days left,
    rounded down (0 during the last 24 hours), and the warning carrying that
    number is sent exactly when it is 14 or less. *)
Theorem ssl_check_announces_whole_days
    (expires_at now now' : Z) (friendly_date : jsstring) :
  (now < expires_at)%Z ->
  (now' < expires_at)%Z ->
  (expires_at - now' < 2 ^ 63)%Z ->
  let days := SslCheck.get_days_until_expiration expires_at now' in
  (0 <= days)%Z
  /\ (86400 * days <= expires_at - now' < 86400 * (days + 1))%Z
  /\ SslCheck.notifications (SslCheck.check expires_at now now' friendly_date)
     = if (days <=? 14)%Z
       then [SslCheck.create_expiration_message days friendly_date]
       else [].
Proof.
  intros Hvalid Hvalid' Hrange days.
  assert (days = Z.quot (expires_at - now') 86400) as Hdays.
  { unfold days, SslCheck.get_days_until_expiration.
    rewrite wrap64_small; [reflexivity | lia]. }
  destruct (quot_day_bounds (expires_at - now')) as (H0 & Hlo & Hhi); [lia |].
  rewrite Hdays. repeat split; try assumption.
  unfold SslCheck.check. apply Z.ltb_lt in Hvalid. rewrite Hvalid.
  fold days. rewrite Hdays.
  unfold SslCheck.is_below_threshold, SslCheck.THRESHOLD_DAYS.
  destruct (Z.quot (expires_at - now') 86400 <=? 14)%Z; reflexivity.
Qed.

Lemma ssl_check_announces_whole_days_witness :
  SslCheck.notifications
    (SslCheck.check 1767225600 1767139201 1767139201 (lit "January 01, 2026"))
  = [SslCheck.create_expiration_message 0 (lit "January 01, 2026")].
Proof.
  apply (ssl_check_announces_whole_days
           1767225600 1767139201 1767139201 (lit "January 01, 2026")); lia.
Defined.

Lemma tight_snoc (l : jsstring) (d : N) :
  match l with c :: _ => negb (isWhiteSpace c) | [] => false end = true ->
  isWhiteSpace d = false ->
  tight (l ++ [d]) = true.
Proof.
  destruct l as [| c r]; [discriminate |]. intros Hc Hd.
  unfold tight. change ((c :: r) ++ [d]) with (c :: (r ++ [d])). cbv beta iota.
  change (c :: (r ++ [d])) with ((c :: r) ++ [d]).
  rewrite List.last_last, Hc, Hd. reflexivity.
Qed.

Ltac tight_message :=
  cbv zeta; rewrite !app_assoc;
  match goal with
  | |- tight (?l ++ lit ?s) = true =>
      change (lit s) with (removelast (lit s) ++ [46%N]);
      rewrite (app_assoc l); apply tight_snoc; reflexivity
  end.

Lemma create_expiration_message_tight (days : Z) (friendly_date : jsstring) :
  tight (SslCheck.create_expiration_message days friendly_date) = true.
Proof. unfold SslCheck.create_expiration_message. tight_message. Qed.

Lemma create_expired_message_tight (friendly_date : jsstring) :
  tight (SslCheck.create_expired_message friendly_date) = true.
Proof. unfold SslCheck.create_expired_message. tight_message. Qed.

Lemma notifications_tight (expires_at now now' : Z) (friendly_date m : jsstring) :
  In m (SslCheck.notifications (SslCheck.check expires_at now now' friendly_date)) ->
  tight m = true /\ m <> [].
Proof.
  unfold SslCheck.check.
  destruct (now <? expires_at)%Z; simpl.
  - destruct (SslCheck.is_below_threshold _); simpl; [| intros []].
    intros [<- | []]. split; [apply create_expiration_message_tight | discriminate].
  - intros [<- | []]. split; [apply create_expired_message_tight | discriminate].
Qed.

(** A notification created by the script reaches the recipient verbatim:
    however its here-document is cut into chunks on the sender's standard
    input, a sender run with a complete environment and a cooperative
    platform passes exactly the script's message to [user.send] and exits
    with code 0. *)
Theorem ssl_check_notification_delivered_verbatim
    (expires_at now now' : Z) (friendly_date m : jsstring)
    (env : Env) (chunks : list jsstring) (later : list Sender.StdinEvent)
    (w : Sender.World) :
  In m (SslCheck.notifications (SslCheck.check expires_at now now' friendly_date)) ->
  List.concat chunks = SslCheck.send_dm_stdin m ->
  missingVars env = [] ->
  Sender.w_login w = LoginReady ->
  Sender.w_user w = UserFound ->
  Sender.w_send w = None ->
  Sender.main env (List.map Sender.OnData chunks ++ Sender.OnEnd :: later) w
  = [NewClient; ClientLogin (env !! BOT_TOKEN);
     ConsoleLog [lit "Logged in as " ++ Sender.w_tag w];
     UsersFetch (env !! DM_USER_ID); UserSend m;
     ClientDestroy; ProcessExit Sender.EXIT_CODES.SUCCESS].
Proof.
  intros Hm Hchunks Henv Hlogin Huser Hsend.
  destruct (notifications_tight _ _ _ _ _ Hm) as [Htight Hne].
  assert (trim (List.concat chunks) = m) as Htrim.
  { rewrite Hchunks. unfold SslCheck.send_dm_stdin.
    apply (trim_padded [] m SslCheck.nl Htight); reflexivity. }
  rewrite (sender_run_ok env chunks later w Henv); try assumption.
  - rewrite Htrim. reflexivity.
  - destruct (blank (List.concat chunks)) eqn:B; [| reflexivity].
    apply trim_nil_iff in B. rewrite Htrim in B. contradiction.
Qed.

Lemma ssl_check_notification_delivered_verbatim_witness :
  sentTexts
    (Sender.main Samples.env_ok
       (List.map Sender.OnData
          [lit "# "; SslCheck.send_dm_stdin
                       (List.skipn 2 (SslCheck.create_expired_message
                                        (lit "January 01, 2026")))]
          ++ Sender.OnEnd :: [])
       (Samples.sender_world LoginReady))
  = [SslCheck.create_expired_message (lit "January 01, 2026")].
Proof.
  rewrite (ssl_check_notification_delivered_verbatim
             1767225600 1767225601 1767225601 (lit "January 01, 2026")
             (SslCheck.create_expired_message (lit "January 01, 2026"))
             Samples.env_ok
             [lit "# "; SslCheck.send_dm_stdin
                          (List.skipn 2 (SslCheck.create_expired_message
                                           (lit "January 01, 2026")))]
             [] (Samples.sender_world LoginReady)).
  - reflexivity.
  - left. reflexivity.
  - reflexivity.
  - reflexivity.
  - reflexivity.
  - reflexivity.
  - reflexivity.
Defined.

(** ** Client teardown in both programs *)










(** ** A rate-limit signal after skipped faults *)

(** When deletions that failed without the rate-limit signal come before
    the one that carries it, the abort still happens on that call: every bot
    message before it was attempted once, only the successful ones were
    counted, and the error thrown is the rate-limit error. *)
Theorem purge_rate_limit_after_skipped_faults
    (w : World) (fuel : nat) (userId : option jsstring)
    (pre post : list Message) (m : Message) :
  reachable w ->
  newestFirst (w_channel w) ->
  length (w_channel w) < fuel ->
  w_channel w = pre ++ m :: post ->
  Forall (fun x => rateLimited x = false) (List.filter (isBot (w_botId w)) pre) ->
  isBot (w_botId w) m = true ->
  rateLimited m = true ->
  exists t st,
    deleteBotMessagesFromDM fuel w userId
    = Some (t ++ [MessageDelete (m_id m)], st,
            Thrown (Error (lit "Failed to delete messages: Rate limit exceeded")))
    /\ deletedIds t = List.map m_id (List.filter (isBot (w_botId w)) pre)
    /\ messagesDeleted st
       = length (List.filter succeeds (List.filter (isBot (w_botId w)) pre)).
Proof.
  intros Hreach Hsorted Hlen Hsplit Hpre Hbot Hrl.
  rewrite List.Forall_forall in Hpre.
  destruct (purge_aborts w fuel userId pre post m Hreach Hsorted Hlen Hsplit)
    as (t & st & Hrun & Heff & Hcount); try assumption.
  { intros x Hx Hb. apply Hpre, filter_In. split; assumption. }
  exists t, st. repeat split; try assumption.
  rewrite <- deletedIds_effects, Heff. apply deletedIds_messageEvents.
Qed.

Lemma purge_rate_limit_after_skipped_faults_witness :
  exists t st,
    deleteBotMessagesFromDM 6
      (Samples.purger_world LoginReady
         (Samples.chan_fault
            ++ [Samples.by_bot 3 (DeleteFault Samples.missing_permissions)])) None
    = Some (t ++ [MessageDelete 3%N], st,
            Thrown (Error (lit "Failed to delete messages: Rate limit exceeded")))
    /\ messagesDeleted st = 2.
Proof.
  destruct (purge_rate_limit_after_skipped_faults
              (Samples.purger_world LoginReady
                 (Samples.chan_fault
                    ++ [Samples.by_bot 3 (DeleteFault Samples.missing_permissions)]))
              6 None Samples.chan_fault []
              (Samples.by_bot 3 (DeleteFault Samples.missing_permissions)))
    as (t & st & Hrun & _ & Hcount).
  - repeat split.
  - repeat constructor.
  - simpl. lia.
  - reflexivity.
  - repeat constructor.
  - reflexivity.
  - reflexivity.
  - exists t, st. split; [exact Hrun | exact Hcount].
Defined.
